(** * Jelly Belly Explorer: the record normaliser, the identifier resolver,
      the source fetcher, the list/gallery projections and the detail view's
      navigation state, embedded from the TypeScript sources and verified.

    Conventions of the embedding.

    - A JavaScript string is a Rocq [string].  Case mapping and white space
      are those of ASCII text: [toLowerCase] and [toUpperCase] act on the
      letters A-Z / a-z and [trim] removes the characters 9-13 and 32; any
      other character is left alone.
    - A run-time value is a [value]: what [JSON.parse] can produce, plus
      [undefined].  A number is kept as the text [String] renders it with
      (its canonical decimal rendering), which is all the program ever asks
      of a number besides its truthiness.
    - Code that can throw returns a [result]; an awaited HTTP request is the
      [result] it settles with.
    - React state is a record and an effect is a function on that record. *)

From Stdlib Require Import String Ascii List Bool Arith ZArith NArith Lia.
From Stdlib Require Import Permutation Sorted DecimalString.
From Stdlib Require DecimalNat.
Import ListNotations.

Local Open Scope string_scope.
Local Open Scope list_scope.

Set Implicit Arguments.

(* ------------------------------------------------------------------ *)
(** ** Strings: the primitives of [String.prototype] the program uses  *)
(* ------------------------------------------------------------------ *)

Module Js.

Definition in_range (lo hi : N) (c : ascii) : bool :=
  let n := N_of_ascii c in (N.leb lo n && N.leb n hi)%bool.

Definition is_upper : ascii -> bool := in_range 65 90.
Definition is_lower : ascii -> bool := in_range 97 122.
Definition is_digit : ascii -> bool := in_range 48 57.

(** White space removed by [trim]: TAB, LF, VT, FF, CR and SPACE. *)
Definition is_space (c : ascii) : bool :=
  (in_range 9 13 c || N.eqb (N_of_ascii c) 32)%bool.

Definition lower_char (c : ascii) : ascii :=
  if is_upper c then ascii_of_N (N_of_ascii c + 32) else c.

Definition upper_char (c : ascii) : ascii :=
  if is_lower c then ascii_of_N (N_of_ascii c - 32) else c.

Fixpoint map_string (f : ascii -> ascii) (s : string) : string :=
  match s with
  | EmptyString => EmptyString
  | String c r => String (f c) (map_string f r)
  end.

Definition toLowerCase : string -> string := map_string lower_char.
Definition toUpperCase : string -> string := map_string upper_char.

Fixpoint trimStart (s : string) : string :=
  match s with
  | EmptyString => EmptyString
  | String c r => if is_space c then trimStart r else s
  end.

Fixpoint trimEnd (s : string) : string :=
  match s with
  | EmptyString => EmptyString
  | String c r =>
      match trimEnd r with
      | EmptyString => if is_space c then EmptyString else String c EmptyString
      | r' => String c r'
      end
  end.

Definition trim (s : string) : string := trimEnd (trimStart s).

(** [s.charAt(0)]: the first character as a string, or the empty string. *)
Definition charAt0 (s : string) : string :=
  match s with
  | EmptyString => EmptyString
  | String c _ => String c EmptyString
  end.

(** [hay.includes(needle)]. *)
Fixpoint includes (hay needle : string) : bool :=
  (String.prefix needle hay ||
   match hay with
   | EmptyString => false
   | String _ r => includes r needle
   end)%bool.

(** A string in a boolean position: only the empty string is falsy. *)
Definition truthy_str (s : string) : bool := negb (s =? "").

(** [`${i}`] for an array index. *)
Definition show_index (i : nat) : string :=
  NilEmpty.string_of_uint (Nat.to_uint i).

End Js.

(* ------------------------------------------------------------------ *)
(** ** Run-time values and thrown errors                               *)
(* ------------------------------------------------------------------ *)

Unset Elimination Schemes.
Inductive value : Type :=
| VUndefined
| VNull
| VBool (b : bool)
| VNum (rendering : string)
| VStr (s : string)
| VArr (items : list value)
| VObj (fields : list (string * value)).
Set Elimination Schemes.

(** What a [catch] can receive: a [TypeError] raised by the language (calling
    a method a value does not have) or the rejection of an HTTP request
    (unreachable host, status outside 2xx, or the 15 s timeout). *)
Inductive exn : Type :=
| TypeError
| RequestFailed.

Inductive result (A : Type) : Type :=
| Ok (a : A)
| Throw (e : exn).

Arguments Ok {A} a.
Arguments Throw {A} e.

Definition bind {A B : Type} (r : result A) (k : A -> result B) : result B :=
  match r with
  | Ok a => k a
  | Throw e => Throw e
  end.

Notation "'let*' x ':=' r 'in' k" := (bind r (fun x => k))
  (at level 10, x name, r at level 100, k at level 200).

(** [try { body } catch { handler }]. *)
Definition try_catch {A : Type} (body : result A) (handler : result A) : result A :=
  match body with
  | Ok a => Ok a
  | Throw _ => handler
  end.

Record Bean : Type := mkBean {
  id : string;
  name : string;
  description : value;
  imageUrl : value;
  group : value;
  color : value
}.

(* ------------------------------------------------------------------ *)
(** ** Identifier resolver: [slugify] and [stableId]                   *)
(* ------------------------------------------------------------------ *)

(** The class [[a-z0-9]] of the first regular expression. *)
Definition slug_char (c : ascii) : bool := (Js.is_lower c || Js.is_digit c)%bool.

Definition hyphen : ascii := "-"%char.

(** [.replace(/[^a-z0-9]+/g, '-')]: [in_run] tells that the previous
    character already belonged to the run being replaced. *)
Fixpoint replace_runs (in_run : bool) (s : string) : string :=
  match s with
  | EmptyString => EmptyString
  | String c r =>
      if slug_char c then String c (replace_runs false r)
      else if in_run then replace_runs true r
      else String hyphen (replace_runs true r)
  end.

Definition strip_leading (s : string) : string :=
  match s with
  | String c r => if Ascii.eqb c hyphen then r else s
  | EmptyString => EmptyString
  end.

Fixpoint strip_trailing (s : string) : string :=
  match s with
  | EmptyString => EmptyString
  | String c EmptyString => if Ascii.eqb c hyphen then EmptyString else s
  | String c r => String c (strip_trailing r)
  end.

(** [.replace(/(^-|-$)/g, '')]: one hyphen at the start and one at the end,
    the second match starting after the first. *)
Definition strip_hyphens (s : string) : string := strip_trailing (strip_leading s).

Definition slugify (name : string) : string :=
  strip_hyphens (replace_runs false (Js.toLowerCase name)).

Definition stableId (b : Bean) (i : nat) : string :=
  if (Js.truthy_str (id b) && Js.truthy_str (Js.trim (id b)))%bool
  then id b
  else "name-" ++ slugify (name b) ++ "-" ++ Js.show_index i.

(* ------------------------------------------------------------------ *)
(** ** Record normaliser: [normalizeOne]                               *)
(* ------------------------------------------------------------------ *)

Definition nullish (v : value) : bool :=
  match v with
  | VUndefined | VNull => true
  | _ => false
  end.

(** A value in a boolean position. *)
Definition truthy (v : value) : bool :=
  match v with
  | VUndefined | VNull => false
  | VBool b => b
  | VNum r => negb ((r =? "0") || (r =? "NaN"))
  | VStr s => Js.truthy_str s
  | VArr _ | VObj _ => true
  end.

(** [a ?? b]. *)
Definition coalesce (a b : value) : value := if nullish a then b else a.

Infix "??" := coalesce (at level 61, right associativity).

Fixpoint assoc (k : string) (fields : list (string * value)) : value :=
  match fields with
  | [] => VUndefined
  | (k', v) :: rest => if k' =? k then v else assoc k rest
  end.

(** [r?.k] for one of the field names the program reads: [undefined] when [r]
    is [undefined] or [null], the property otherwise.  None of the names is a
    property of a string, a number, a boolean or an array, so only an object
    answers with something else than [undefined]. *)
Definition get (r : value) (k : string) : value :=
  match r with
  | VObj fields => assoc k fields
  | _ => VUndefined
  end.

(** [fields] holds the key [k]: the parsed object has it as an own property. *)
Definition has_key (k : string) (fields : list (string * value)) : bool :=
  List.existsb (fun kv => fst kv =? k) fields.

(** [String(v)].  A parsed object is converted by [Object.prototype.toString]
    unless it has an own property [toString], which hides that method and is
    not callable, and the conversion throws [TypeError].  An array joins the
    conversions of its elements, [undefined] and [null] counting as empty. *)
Fixpoint String_ (v : value) : result string :=
  match v with
  | VUndefined => Ok "undefined"
  | VNull => Ok "null"
  | VBool true => Ok "true"
  | VBool false => Ok "false"
  | VNum r => Ok r
  | VStr s => Ok s
  | VArr items =>
      let* parts :=
        (fix join (elements : list value) : result (list string) :=
           match elements with
           | [] => Ok []
           | e :: rest =>
               let* s := match e with
                         | VUndefined | VNull => Ok ""
                         | _ => String_ e
                         end in
               let* ss := join rest in
               Ok (s :: ss)
           end) items in
      Ok (String.concat "," parts)
  | VObj fields =>
      if has_key "toString" fields then Throw TypeError else Ok "[object Object]"
  end.

Definition normalizeOne (raw : value) : result Bean :=
  let r := raw in
  let* id := String_ (get r "id" ?? get r "_id" ?? get r "beanId" ?? get r "Id"
                      ?? get r "ID" ?? VStr "") in
  let* name := String_ (get r "name" ?? get r "flavor" ?? get r "title"
                        ?? VStr "Unknown") in
  let description := get r "description" ?? get r "desc" ?? get r "about" ?? VStr "" in
  let imageUrl := get r "imageUrl" ?? get r "image" ?? get r "img" ?? get r "photoUrl"
                  ?? get r "thumbnail" ?? VStr "" in
  let group := get r "group" ?? get r "category" ?? get r "type" ?? get r "family"
               ?? VStr "" in
  let color := get r "color" ?? get r "hexColor" ?? get r "hex" ?? VStr "" in
  Ok (mkBean id name description imageUrl group color).

(** The contract in the specification's words: the aliases of a field are
    tried in order and the first one whose value is neither [undefined] nor
    [null] wins; the default is taken when there is none. *)
Definition first_non_nullish (aliases : list string) (r : value) (default : value) : value :=
  match List.find (fun k => negb (nullish (get r k))) aliases with
  | Some k => get r k
  | None => default
  end.

(* ------------------------------------------------------------------ *)
(** ** Source fetcher: [fetchBeans]                                    *)
(* ------------------------------------------------------------------ *)

(** What [await axios.get(url, { timeout: 15000 })] settles with: the parsed
    body, or a rejection. *)
Definition response : Type := result value.

(** [Array.isArray(data) ? data : (data as any)?.data ?? []]. *)
Definition unwrap (data : value) : value :=
  match data with
  | VArr _ => data
  | _ => get data "data" ?? VArr []
  end.

(** The callback of [map] applied to the elements in order; the first
    exception ends the call. *)
Fixpoint map_r {A B : Type} (f : A -> result B) (items : list A) : result (list B) :=
  match items with
  | [] => Ok []
  | x :: rest =>
      let* y := f x in
      let* ys := map_r f rest in
      Ok (y :: ys)
  end.

(** The callback of [find] applied to the elements in order until one
    passes; an exception ends the call. *)
Fixpoint find_r {A : Type} (p : A -> result bool) (items : list A) : result (option A) :=
  match items with
  | [] => Ok None
  | x :: rest =>
      let* passes := p x in
      if passes then Ok (Some x) else find_r p rest
  end.

(** [arr.map(f)]: only an array has the method. *)
Definition array_map {B : Type} (f : value -> result B) (arr : value) : result (list B) :=
  match arr with
  | VArr items => map_r f items
  | _ => Throw TypeError
  end.

(** [arr.find(p)]: [undefined] when no element passes. *)
Definition array_find (p : value -> result bool) (arr : value) : result value :=
  match arr with
  | VArr items =>
      let* found := find_r p items in
      Ok match found with
         | Some x => x
         | None => VUndefined
         end
  | _ => Throw TypeError
  end.

(** The filter [(b) => b.id && b.name]. *)
Definition has_id_and_name (b : Bean) : bool :=
  (Js.truthy_str (id b) && Js.truthy_str (name b))%bool.

(** [endpointA] is what the request to [/api/beans] settles with and
    [endpointB] what the request to [/api/flavors] does; the second request
    is issued in the [catch] only. *)
Definition fetchBeans (endpointA endpointB : response) : result (list Bean) :=
  try_catch
    (let* data := endpointA in
     let listA := unwrap data in
     let* beansA := array_map normalizeOne listA in
     Ok (List.filter has_id_and_name beansA))
    (let* data := endpointB in
     let listB := unwrap data in
     let* beansB := array_map normalizeOne listB in
     Ok (List.filter has_id_and_name beansB)).

(** The procedure of the specification, for one endpoint: unwrap a bare
    array or the array under [data], normalise each element, keep the
    elements whose id and name are not empty.  It fails when the request
    fails, when the body unwraps to something that is not an array, or when
    an element cannot be normalised. *)
Definition collection_of (r : response) : result (list Bean) :=
  match r with
  | Throw e => Throw e
  | Ok data =>
      let* items :=
        match data with
        | VArr items => Ok items
        | _ =>
            match get data "data" with
            | VArr items => Ok items
            | VUndefined | VNull => Ok []
            | _ => Throw TypeError
            end
        end in
      let* beans := map_r normalizeOne items in
      Ok (List.filter has_id_and_name beans)
  end.

(** The state the List and Gallery pages load into, and their effect on
    mount.  [mockData] is the bundled [mock/beans.json]. *)
Record Loaded : Type := mkLoaded {
  all : list Bean;
  loading : bool;
  error : option string
}.

Definition initial : Loaded := mkLoaded [] true None.

Definition setAll (v : list Bean) (st : Loaded) : Loaded :=
  mkLoaded v (loading st) (error st).
Definition setLoading (v : bool) (st : Loaded) : Loaded :=
  mkLoaded (all st) v (error st).
Definition setError (v : option string) (st : Loaded) : Loaded :=
  mkLoaded (all st) (loading st) v.

(** The asynchronous function of the effect.  The bundled list is
    normalised where it is used; an exception there, in the [try] block,
    enters the [catch] block, and one in the [catch] block leaves it with
    nothing set (the promise of the effect rejects); the [finally] block
    runs in every case. *)
Definition load (mockData : list value) (alive : bool) (endpointA endpointB : response)
    (st : Loaded) : Loaded :=
  let finally (st : Loaded) := if alive then setLoading false st else st in
  let catch (st : Loaded) :=
    if negb alive then st
    else
      match map_r normalizeOne mockData with
      | Ok mock => setError None (setAll mock st)
      | Throw _ => st
      end in
  finally
    match fetchBeans endpointA endpointB with
    | Ok beans =>
        if negb alive then st
        else if (List.length beans =? 0)%nat then
          match map_r normalizeOne mockData with
          | Ok mock => setError None (setAll mock st)
          | Throw _ => catch st
          end
        else setError None (setAll beans st)
    | Throw _ => catch st
    end.

(* ------------------------------------------------------------------ *)
(** ** Arrays: the methods of [Array.prototype] the pages use          *)
(* ------------------------------------------------------------------ *)

Section Arrays.

Variable A : Type.

(** [arr.map((x, i) => f(x, i))]. *)
Fixpoint map_from (B : Type) (f : A -> nat -> B) (i : nat) (arr : list A) : list B :=
  match arr with
  | [] => []
  | x :: rest => f x i :: map_from f (S i) rest
  end.

Definition map_index (B : Type) (f : A -> nat -> B) (arr : list A) : list B :=
  map_from f 0 arr.

(** [arr.filter(p)] for a callback that may throw: the first exception
    ends the call. *)
Fixpoint array_filter (p : A -> result bool) (arr : list A) : result (list A) :=
  match arr with
  | [] => Ok []
  | x :: rest =>
      let* keep := p x in
      let* rest' := array_filter p rest in
      Ok (if keep then x :: rest' else rest')
  end.

(** [arr[i]] for a number [i]: [undefined] outside the array. *)
Definition at_index (arr : list A) (i : Z) : option A :=
  if (i <? 0)%Z then None else List.nth_error arr (Z.to_nat i).

(** [arr.sort(cmp)].  The language requires the sort to be stable, and for
    a consistent comparator that fixes the outcome; it is computed here by
    insertion, an element going before the first one it does not exceed. *)
Variable cmp : A -> A -> Z.

Fixpoint insert (x : A) (arr : list A) : list A :=
  match arr with
  | [] => [x]
  | y :: rest => if (cmp x y <=? 0)%Z then x :: arr else y :: insert x rest
  end.

Definition array_sort (arr : list A) : list A := List.fold_right insert [] arr.

End Arrays.

(** [ids.indexOf(id)] on an array of strings: [-1] when absent. *)
Fixpoint indexOf_from (i : Z) (arr : list string) (x : string) : Z :=
  match arr with
  | [] => (-1)%Z
  | y :: rest => if y =? x then i else indexOf_from (i + 1)%Z rest x
  end.

Definition indexOf (arr : list string) (x : string) : Z := indexOf_from 0%Z arr x.

(* ------------------------------------------------------------------ *)
(** ** The state a navigation to [/detail/:id] carries                 *)
(* ------------------------------------------------------------------ *)

Inductive FromSource : Type := FromList | FromGallery.

(** [interface NavState]: every field is optional. *)
Record NavState : Type := mkNav {
  nav_ids : option (list string);
  nav_index : option Z;
  nav_from : option FromSource;
  nav_beans : option (list Bean)
}.

(** A link or a call of [navigate]: the path and the state sent with it. *)
Record Navigation : Type := mkNavigation {
  to : string;
  state : NavState
}.

(* ------------------------------------------------------------------ *)
(** ** List page                                                       *)
(* ------------------------------------------------------------------ *)

Module ListView.

Inductive SortKey : Type := ByName | ById.
Inductive SortDir : Type := Asc | Desc.

(** [field?.toLowerCase().includes(needle) ?? false]. *)
Definition field_includes (field : value) (needle : string) : result bool :=
  match field with
  | VUndefined | VNull => Ok false
  | VStr s => Ok (Js.includes (Js.toLowerCase s) needle)
  | _ => Throw TypeError
  end.

Definition filtered (all : list Bean) (q : string) : result (list Bean) :=
  let needle := Js.toLowerCase (Js.trim q) in
  if negb (Js.truthy_str needle) then Ok all
  else
    array_filter
      (fun b : Bean =>
         if Js.includes (Js.toLowerCase (name b)) needle then Ok true
         else
           let* in_group := field_includes (group b) needle in
           if in_group then Ok true
           else field_includes (description b) needle)
      all.

Definition compare_fn (sortKey : SortKey) (sortDir : SortDir) (a b : Bean) : Z :=
  let A := Js.toLowerCase (match sortKey with ByName => name a | ById => id a end) in
  let B := Js.toLowerCase (match sortKey with ByName => name b | ById => id b end) in
  if (A <? B)%string then match sortDir with Asc => (-1)%Z | Desc => 1%Z end
  else if (B <? A)%string then match sortDir with Asc => 1%Z | Desc => (-1)%Z end
  else 0%Z.

Definition sorted (filtered : list Bean) (sortKey : SortKey) (sortDir : SortDir)
  : list Bean :=
  let arr := filtered in
  array_sort (compare_fn sortKey sortDir) arr.

Definition ids (sorted : list Bean) : list string := map_index stableId sorted.

(** The [Link] of the row of [b], at position [i] of [sorted]. *)
Definition link (sorted : list Bean) (b : Bean) (i : nat) : Navigation :=
  mkNavigation ("/detail/" ++ stableId b i)
    (mkNav (Some (ids sorted)) (Some (Z.of_nat i)) (Some FromList) (Some sorted)).

Inductive view : Type :=
| LoadingText
| ErrorText (msg : string)
| Rows (rows : list (Bean * Navigation)).

Definition render (st : Loaded) (q : string) (sortKey : SortKey) (sortDir : SortDir)
  : result view :=
  let* filtered := filtered (all st) q in
  let sorted := sorted filtered sortKey sortDir in
  if loading st then Ok LoadingText
  else
    match error st with
    | Some msg => if Js.truthy_str msg then Ok (ErrorText msg)
                  else Ok (Rows (map_index (fun b i => (b, link sorted b i)) sorted))
    | None => Ok (Rows (map_index (fun b i => (b, link sorted b i)) sorted))
    end.

End ListView.

(* ------------------------------------------------------------------ *)
(** ** Gallery page                                                    *)
(* ------------------------------------------------------------------ *)

Module GalleryView.

(** [b.group && b.group.trim() ? b.group : b.name.charAt(0).toUpperCase()].
    A truthy group that is not a string has no [trim] to call. *)
Definition bucketOf (b : Bean) : result string :=
  match group b with
  | VStr g =>
      Ok (if (Js.truthy_str g && Js.truthy_str (Js.trim g))%bool then g
          else Js.toUpperCase (Js.charAt0 (name b)))
  | other =>
      if truthy other then Throw TypeError
      else Ok (Js.toUpperCase (Js.charAt0 (name b)))
  end.

(** [s.add(x)] on a [Set], kept in insertion order. *)
Definition set_add (x : string) (s : list string) : list string :=
  if List.existsb (String.eqb x) s then s else s ++ [x].

(** [s.has(x)]. *)
Definition set_has (s : list string) (x : string) : bool :=
  List.existsb (String.eqb x) s.

(** The comparison [arr.sort()] uses without an argument, on strings. *)
Definition default_compare (x y : string) : Z :=
  if (x <? y)%string then (-1)%Z else if (y <? x)%string then 1%Z else 0%Z.

Fixpoint add_buckets (all : list Bean) (s : list string) : result (list string) :=
  match all with
  | [] => Ok s
  | b :: rest =>
      let* bucket := bucketOf b in
      add_buckets rest (set_add bucket s)
  end.

Definition allBuckets (all : list Bean) : result (list string) :=
  let* s := add_buckets all [] in
  Ok (array_sort default_compare s).

(** The effect on [allBuckets, active.length]: the value of [active] after
    it ran. *)
Definition autoSelect (allBuckets active : list string) : list string :=
  if ((List.length active =? 0)%nat && negb (List.length allBuckets =? 0)%nat)%bool
  then List.firstn (Nat.min 3 (List.length allBuckets)) allBuckets
  else active.

(** The [onChange] of the chip of [tag]. *)
Definition toggle (tag : string) (checked : bool) (prev : list string) : list string :=
  if checked then prev ++ [tag]
  else List.filter (fun t => negb (t =? tag)) prev.

Definition filtered (all : list Bean) (active : list string) : result (list Bean) :=
  if (List.length active =? 0)%nat then Ok all
  else
    let sel := List.fold_left (fun s x => set_add x s) active [] in
    array_filter (fun b => let* bucket := bucketOf b in Ok (set_has sel bucket)) all.

Definition ids (filtered : list Bean) : list string := map_index stableId filtered.

(** The [Link] of the card of [b], at position [i] of [filtered]. *)
Definition link (filtered : list Bean) (b : Bean) (i : nat) : Navigation :=
  mkNavigation ("/detail/" ++ stableId b i)
    (mkNav (Some (ids filtered)) (Some (Z.of_nat i)) (Some FromGallery) (Some filtered)).

Inductive view : Type :=
| LoadingText
| ErrorText (msg : string)
| Cards (chips : list (string * bool)) (cards : list (Bean * Navigation)).

Definition render (st : Loaded) (active : list string) : result view :=
  let* allBuckets := allBuckets (all st) in
  let* filtered := filtered (all st) active in
  if loading st then Ok LoadingText
  else
    let page :=
      Cards (List.map (fun tag => (tag, set_has active tag)) allBuckets)
            (map_index (fun b i => (b, link filtered b i)) filtered) in
    match error st with
    | Some msg => if Js.truthy_str msg then Ok (ErrorText msg) else Ok page
    | None => Ok page
    end.

End GalleryView.

Definition with_group (g : string) (n : string) : Bean :=
  mkBean n n VUndefined VUndefined (VStr g) VUndefined.

(* ------------------------------------------------------------------ *)
(** ** Detail page                                                     *)
(* ------------------------------------------------------------------ *)

Module DetailView.

(** The expression the lookups repeat for the id of a raw record:
    [String(r?.id ?? r?._id ?? r?.beanId ?? r?.Id ?? r?.ID ?? '')]. *)
Definition raw_id (x : value) : result string :=
  let r := x in
  String_ (get r "id" ?? get r "_id" ?? get r "beanId" ?? get r "Id" ?? get r "ID"
           ?? VStr "").

(** A [try] block that either returns a record from the enclosing function
    ([Some]) or completes ([None]); [or_else] continues with what follows
    the block in the second case. *)
Definition or_else (stage next : result (option Bean)) : result (option Bean) :=
  match stage with
  | Ok (Some b) => Ok (Some b)
  | Ok None => next
  | Throw e => Throw e
  end.

(** [found ? normalizeOne(found) : null]. *)
Definition normalized_or_null (found : value) : result (option Bean) :=
  if truthy found then (let* b := normalizeOne found in Ok (Some b)) else Ok None.

(** [one] answers [/api/beans/:id], [beansA] answers [/api/beans] and
    [flavorsB] answers [/api/flavors]. *)
Definition fetchBeanById (id : string) (one beansA flavorsB : response)
  : result (option Bean) :=
  try_catch
    (let* data := one in
     let candidate :=
       (if (truthy data && truthy (get data "data"))%bool then get data "data" else data)
       ?? VNull in
     match candidate with
     | VArr items =>
         let* found :=
           array_find (fun x => let* rid := raw_id x in Ok (rid =? id)) candidate in
         normalized_or_null found
     | _ => normalized_or_null candidate
     end)
    (or_else
       (try_catch
          (let* data := beansA in
           let listA := unwrap data in
           let* foundA :=
             array_find (fun x => let* rid := raw_id x in Ok (rid =? id)) listA in
           normalized_or_null foundA)
          (Ok None))
       (or_else
          (try_catch
             (let* data := flavorsB in
              let listB := unwrap data in
              let* foundB :=
                array_find (fun x => let* rid := raw_id x in Ok (rid =? id)) listB in
              normalized_or_null foundB)
             (Ok None))
          (Ok None))).

Definition fetchAllIds (beansA flavorsB : response) : result (list string) :=
  try_catch
    (let* data := beansA in
     let listA := unwrap data in
     let* strings := array_map raw_id listA in
     Ok (List.filter Js.truthy_str strings))
    (let* data := flavorsB in
     let listB := unwrap data in
     let* strings := array_map raw_id listB in
     Ok (List.filter Js.truthy_str strings)).

Record State : Type := mkState {
  bean : option Bean;
  loading : bool;
  error : option string;
  ids : list string;
  idx : Z
}.

Definition setBean (v : option Bean) (st : State) : State :=
  mkState v (loading st) (error st) (ids st) (idx st).
Definition setLoading (v : bool) (st : State) : State :=
  mkState (bean st) v (error st) (ids st) (idx st).
Definition setError (v : option string) (st : State) : State :=
  mkState (bean st) (loading st) v (ids st) (idx st).
Definition setIds (v : list string) (st : State) : State :=
  mkState (bean st) (loading st) (error st) v (idx st).
Definition setIdx (v : Z) (st : State) : State :=
  mkState (bean st) (loading st) (error st) (ids st) v.

(** The [useState] initial values, from the state the navigation carried. *)
Definition initial (passed : NavState) : State :=
  mkState None true None
    match nav_ids passed with Some l => l | None => [] end
    match nav_index passed with Some i => i | None => (-1)%Z end.

(** [passed.beans?.length] in a boolean position. *)
Definition has_beans (passed : NavState) : bool :=
  match nav_beans passed with
  | Some list => negb (List.length list =? 0)%nat
  | None => false
  end.

(** An asynchronous call an effect starts. *)
Inductive Fetch : Type :=
| FetchBeanById (id : string)
| FetchAllIds.

(** An effect reads the state of the render it belongs to ([seen]) and
    queues its updates on the state being committed ([st]). *)

Definition effectA (id : string) (passed : NavState) (st : State) : State :=
  match nav_beans passed with
  | Some list =>
      if negb (List.length list =? 0)%nat then
        let nextIds := map_index stableId list in
        let pos := indexOf nextIds id in
        let st := setIds nextIds st in
        let st := setIdx (if (pos >=? 0)%Z then pos else 0%Z) st in
        let st := setBean (if (pos >=? 0)%Z then at_index list pos else at_index list 0%Z) st in
        let st := setLoading false st in
        setError None st
      else st
  | None => st
  end.

(** The part of effect B that runs at once, and the call it starts. *)
Definition effectB (id : string) (passed : NavState) (st : State) : State * list Fetch :=
  if has_beans passed then (st, [])
  else (setError None (setLoading true st), [FetchBeanById id]).

(** The part of effect B that runs when [fetchBeanById] has settled. *)
Definition effectB_settled (alive : bool) (outcome : result (option Bean)) (st : State)
  : State :=
  let finally (st : State) := if alive then setLoading false st else st in
  finally
    match outcome with
    | Ok one =>
        if negb alive then st
        else
          match one with
          | Some b => setError None (setBean (Some b) st)
          | None => setError (Some "Not found.") (setBean None st)
          end
    | Throw _ =>
        if negb alive then st
        else setError (Some "Failed to load item.") (setBean None st)
    end.

Definition effectC (passed : NavState) (seen st : State) : State * list Fetch :=
  if has_beans passed then (st, [])
  else if negb (List.length (ids seen) =? 0)%nat then (st, [])
  else (st, [FetchAllIds]).

(** The part of effect C that runs when [fetchAllIds] has settled. *)
Definition effectC_settled (alive : bool) (outcome : result (list string)) (st : State)
  : State :=
  match outcome with
  | Ok list => if negb alive then st else setIds list st
  | Throw _ => st
  end.

Definition effectD (id : string) (seen st : State) : State :=
  if ((idx seen >=? 0)%Z || (List.length (ids seen) =? 0)%nat || negb (Js.truthy_str id))%bool
  then st
  else
    let pos := indexOf (ids seen) id in
    setIdx (if (pos >=? 0)%Z then pos else 0%Z) st.

(** The effects that follow a render, in the order they are declared: the
    state once their updates are applied, and the calls they started.
    After the first render and after a change of [id] the effects A, B
    and D run; [c_runs] tells whether C does, which it does after the
    first render and, later, when [ids.length] or [passed.beans] changed. *)
Definition commit (id : string) (passed : NavState) (c_runs : bool) (seen : State)
  : State * list Fetch :=
  let st := effectA id passed seen in
  let '(st, fetchesB) := effectB id passed st in
  let '(st, fetchesC) := if c_runs then effectC passed seen st else (st, []) in
  let st := effectD id seen st in
  (st, fetchesB ++ fetchesC).

(** The page is mounted: the first render sees the initial state. *)
Definition mount (id : string) (passed : NavState) : State * list Fetch :=
  commit id passed true (initial passed).

(** The render that follows the state change from [prev] to [now]: effect
    C runs again when [ids.length] changed and effect D when [idx] or
    [ids] did (running D on unchanged values changes nothing, so it is run
    here in every case); A and B depend on [id] and [passed.beans] only,
    which a state change leaves alone. *)
Definition rerun (id : string) (passed : NavState) (prev now : State)
  : State * list Fetch :=
  let '(st, fetchesC) :=
    if (List.length (ids now) =? List.length (ids prev))%nat then (now, [])
    else effectC passed now now in
  (effectD id now st, fetchesC).

Definition canPrev (st : State) : bool := (idx st >? 0)%Z.

Definition canNext (st : State) : bool :=
  ((idx st >=? 0)%Z && (idx st <? Z.of_nat (List.length (ids st)) - 1)%Z)%bool.

(** [`/detail/${target}`]. *)
Definition detail_path (target : option string) : string :=
  "/detail/" ++ match target with Some t => t | None => "undefined" end.

(** [None]: the handler returned without navigating. *)
Definition goPrev (passed : NavState) (st : State) : option Navigation :=
  if negb (canPrev st) then None
  else
    let target := at_index (ids st) (idx st - 1)%Z in
    Some (mkNavigation (detail_path target)
            (mkNav (Some (ids st)) (Some (idx st - 1)%Z) (nav_from passed) (nav_beans passed))).

Definition goNext (passed : NavState) (st : State) : option Navigation :=
  if negb (canNext st) then None
  else
    let target := at_index (ids st) (idx st + 1)%Z in
    Some (mkNavigation (detail_path target)
            (mkNav (Some (ids st)) (Some (idx st + 1)%Z) (nav_from passed) (nav_beans passed))).

Inductive view : Type :=
| LoadingText
| Message (text : string)
| Details (b : Bean) (prev_enabled next_enabled : bool) (back : string).

Definition render (passed : NavState) (st : State) : view :=
  if loading st then LoadingText
  else
    let page :=
      match bean st with
      | None => Message "Not found."
      | Some b =>
          Details b (canPrev st) (canNext st)
            match nav_from passed with
            | Some FromGallery => "/gallery"
            | _ => "/list"
            end
      end in
    match error st with
    | Some msg => if Js.truthy_str msg then Message msg else page
    | None => page
    end.

(** A load of [/detail/:id] with no carried state, every call settled while
    the page is mounted: the final state and the calls started on the way.
    [one], [beansA1] and [flavorsB1] answer the requests of
    [fetchBeanById]; [beansA2] and [flavorsB2] those of [fetchAllIds]. *)
Definition deep_link (id : string) (one beansA1 flavorsB1 beansA2 flavorsB2 : response)
  : State * list Fetch :=
  let passed := mkNav None None None None in
  let '(st0, fetches0) := mount id passed in
  let st1 := effectB_settled true (fetchBeanById id one beansA1 flavorsB1) st0 in
  let st2 := effectC_settled true (fetchAllIds beansA2 flavorsB2) st1 in
  let '(st3, fetches1) := rerun id passed st0 st2 in
  (st3, fetches0 ++ fetches1).

End DetailView.

(* ------------------------------------------------------------------ *)
(** ** The navigations into the detail page                            *)
(* ------------------------------------------------------------------ *)

(** [entry nav seen]: the application navigates with [nav], and [seen] is the
    state of the detail page at the render that follows.  A link of the List
    or Gallery page mounts the page, which starts from its initial state;
    Previous and Next navigate inside the mounted page, which keeps the
    state it had when the button was pressed. *)
Inductive entry : Navigation -> DetailView.State -> Prop :=
| entry_from_list (sorted : list Bean) (b : Bean) (i : nat) :
    List.nth_error sorted i = Some b ->
    entry (ListView.link sorted b i)
          (DetailView.initial (state (ListView.link sorted b i)))
| entry_from_gallery (filtered : list Bean) (b : Bean) (i : nat) :
    List.nth_error filtered i = Some b ->
    entry (GalleryView.link filtered b i)
          (DetailView.initial (state (GalleryView.link filtered b i)))
| entry_by_prev (passed : NavState) (st : DetailView.State) (nav : Navigation) :
    DetailView.goPrev passed st = Some nav -> entry nav st
| entry_by_next (passed : NavState) (st : DetailView.State) (nav : Navigation) :
    DetailView.goNext passed st = Some nav -> entry nav st.

(* ------------------------------------------------------------------ *)
(** ** Notions of the specification                                    *)
(* ------------------------------------------------------------------ *)

(** The words of a name: its maximal runs of characters of [[a-z0-9]].
    [pieces] cuts at every other character and keeps the empty pieces. *)
Fixpoint pieces (s : string) : list string :=
  match s with
  | EmptyString => [EmptyString]
  | String c r =>
      if slug_char c then
        match pieces r with
        | w :: ws => String c w :: ws
        | [] => [String c EmptyString]
        end
      else EmptyString :: pieces r
  end.

Definition words (s : string) : list string :=
  List.filter Js.truthy_str (pieces s).

(** The key the List page sorts on, case folded, and the order a direction
    asks for between the keys of two neighbours. *)
Definition sort_key (sortKey : ListView.SortKey) (b : Bean) : string :=
  Js.toLowerCase match sortKey with ListView.ByName => name b | ListView.ById => id b end.

Definition in_order (sortDir : ListView.SortDir) (x y : string) : Prop :=
  match sortDir with
  | ListView.Asc => (x <=? y)%string = true
  | ListView.Desc => (y <=? x)%string = true
  end.

(** [text] occurs in [field] when case is ignored. *)
Definition ci_substring (text field : string) : Prop :=
  exists pre post : string,
    Js.toLowerCase field = (pre ++ Js.toLowerCase text ++ post)%string.

(** The search of the List page: the text occurs in the name, or in the
    group, or in the description. *)
Definition matches (text : string) (b : Bean) : Prop :=
  ci_substring text (name b)
  \/ (exists g, group b = VStr g /\ ci_substring text g)
  \/ (exists d, description b = VStr d /\ ci_substring text d).

(** An optional string field as [type Bean] declares it: a string, or
    absent. *)
Definition optional_string (v : value) : Prop :=
  match v with
  | VStr _ | VUndefined | VNull => True
  | _ => False
  end.

(** What the callback of [filtered] answers on a bean of the declared type. *)
Definition keeps (needle : string) (b : Bean) : bool :=
  (Js.includes (Js.toLowerCase (name b)) needle
   || match group b with VStr g => Js.includes (Js.toLowerCase g) needle | _ => false end
   || match description b with
      | VStr d => Js.includes (Js.toLowerCase d) needle
      | _ => false
      end)%bool.

(* ------------------------------------------------------------------ *)
(** ** Notions used by the further properties                          *)
(* ------------------------------------------------------------------ *)

(** Every character of [s] passes [p]. *)
Fixpoint all_chars (p : ascii -> bool) (s : string) : bool :=
  match s with
  | EmptyString => true
  | String c r => (p c && all_chars p r)%bool
  end.

Definition starts_with_hyphen (s : string) : bool :=
  match s with
  | String c _ => Ascii.eqb c hyphen
  | EmptyString => false
  end.

Fixpoint ends_with_hyphen (s : string) : bool :=
  match s with
  | EmptyString => false
  | String c EmptyString => Ascii.eqb c hyphen
  | String _ r => ends_with_hyphen r
  end.

(** No two hyphens follow each other in [s]. *)
Fixpoint single_hyphens (s : string) : bool :=
  match s with
  | EmptyString => true
  | String c r => (negb (Ascii.eqb c hyphen && starts_with_hyphen r) && single_hyphens r)%bool
  end.

(** What follows the last hyphen of [s] (all of [s] when it has none). *)
Fixpoint after_last_hyphen (s : string) : string :=
  match s with
  | EmptyString => EmptyString
  | String c r =>
      if all_chars (fun d => negb (Ascii.eqb d hyphen)) r
      then (if Ascii.eqb c hyphen then r else s)
      else after_last_hyphen r
  end.

(** A word: a non-empty string of characters of [[a-z0-9]]. *)
Definition is_word (w : string) : Prop := w <> "" /\ all_chars slug_char w = true.

(** The bean's own id serves as its identifier. *)
Definition has_own_id (b : Bean) : Prop := Js.trim (id b) <> "".

(** The state in which the detail page shows position [i] of the collection
    [list] it was handed. *)
Definition showing (list : list Bean) (i : nat) : DetailView.State :=
  DetailView.mkState (List.nth_error list i) false None
    (map_index stableId list) (Z.of_nat i).

(** No object inside [v] has a key [toString]: nothing in [v] stops a
    conversion to a string. *)
Fixpoint plain (v : value) : bool :=
  match v with
  | VArr items => List.forallb plain items
  | VObj fields =>
      (negb (has_key "toString" fields)
       && List.forallb (fun kv => plain (snd kv)) fields)%bool
  | _ => true
  end.

(** An answer that settled with a plain body, or did not settle with one. *)
Definition plain_answer (r : response) : Prop :=
  match r with
  | Ok data => plain data = true
  | Throw _ => True
  end.

(** The records an answer unwraps to: the elements of a bare array or of the
    array under [data], none when there is neither; a failure when the
    request failed or when [data] holds something that is not an array. *)
Definition items_of (r : response) : result (list value) :=
  let* data := r in
  array_map (fun x => Ok x) (unwrap data).

(** The search [fetchBeanById] runs in a list of records: they are tried in
    order and the first whose raw id is [id] is taken, normalised.  Nothing
    is found when no record has the id, when a record tried on the way, or
    the match itself, cannot be converted, or when the match is falsy. *)
Fixpoint search (items : list value) (id : string) : option Bean :=
  match items with
  | [] => None
  | x :: rest =>
      match DetailView.raw_id x with
      | Throw _ => None
      | Ok rid =>
          if rid =? id then
            (if truthy x
             then match normalizeOne x with Ok b => Some b | Throw _ => None end
             else None)
          else search rest id
      end
  end.

(** The same search in the answer of a collection endpoint; nothing is found
    either when the request failed or when the answer holds no list. *)
Definition find_in (r : response) (id : string) : option Bean :=
  match items_of r with
  | Ok items => search items id
  | Throw _ => None
  end.

(** What the callback of the Gallery page's [filtered] answers for [b] when
    the buckets [active] are selected. *)
Definition in_active (active : list string) (b : Bean) : bool :=
  match GalleryView.bucketOf b with
  | Ok bucket => List.existsb (String.eqb bucket) active
  | Throw _ => false
  end.

(* ------------------------------------------------------------------ *)
(** ** Placeholder images                                              *)
(* ------------------------------------------------------------------ *)

(** The characters [encodeURIComponent] leaves as they are: letters, digits
    and [- _ . ! ~ * ' ( )]. *)
Definition unreserved (c : ascii) : bool :=
  (Js.is_upper c || Js.is_lower c || Js.is_digit c
   || List.existsb (Ascii.eqb c)
        ["-"; "_"; "."; "!"; "~"; "*"; "'"; "("; ")"]%char)%bool.

Definition hex_digit (n : N) : ascii :=
  if (n <? 10)%N then ascii_of_N (48 + n) else ascii_of_N (55 + n).

(** [%XX] for one byte. *)
Definition percent (byte : N) : string :=
  String "%" (String (hex_digit (byte / 16)) (String (hex_digit (byte mod 16)) EmptyString)).

(** A character below 128 is one byte of UTF-8; a character from 128 to 255,
    read as that code point, is two. *)
Definition encode_char (c : ascii) : string :=
  let n := N_of_ascii c in
  if unreserved c then String c EmptyString
  else if (n <? 128)%N then percent n
  else (percent (192 + n / 64) ++ percent (128 + n mod 64))%string.

Fixpoint encodeURIComponent (s : string) : string :=
  match s with
  | EmptyString => EmptyString
  | String c r => (encode_char c ++ encodeURIComponent r)%string
  end.

Definition newline : string := String (ascii_of_N 10) EmptyString.

(** [`${w}`] for a width or a height. *)
Definition show_number (n : nat) : string := NilEmpty.string_of_uint (Nat.to_uint n).

(** The template of the picture, up to the text and after it. *)
Definition svg_before (w h : nat) : string :=
  ("<svg xmlns='http://www.w3.org/2000/svg' width='" ++ show_number w
   ++ "' height='" ++ show_number h ++ "'>" ++ newline
   ++ "    <rect width='100%' height='100%' fill='#eee'/>" ++ newline
   ++ "    <text x='50%' y='50%' dominant-baseline='middle' text-anchor='middle'" ++ newline
   ++ "      font-family='system-ui, sans-serif' font-size='14' fill='#888'>")%string.

Definition svg_after : string := ("</text>" ++ newline ++ "  </svg>")%string.

Definition placeholder (text : string) (w h : nat) : string :=
  let svg := (svg_before w h ++ text ++ svg_after)%string in
  ("data:image/svg+xml;utf8," ++ encodeURIComponent svg)%string.

(** [b.imageUrl || placeholder(b.name, w, h)]: the [src] of the image of a
    bean, 64 by 64 in a row of the list, 300 by 160 on a card of the gallery
    and 600 by 400 on the detail page. *)
Definition image_src (b : Bean) (w h : nat) : value :=
  if truthy (imageUrl b) then imageUrl b else VStr (placeholder (name b) w h).

Definition is_hex (c : ascii) : bool :=
  (Js.is_digit c || Js.in_range 65 70 c)%bool.

(** A string in which every character is unreserved or belongs to an escape
    [%XX] with two upper-case hexadecimal digits. *)
Fixpoint uri_escaped (s : string) : bool :=
  match s with
  | EmptyString => true
  | String c r =>
      if Ascii.eqb c "%" then
        match r with
        | String a (String b r') => (is_hex a && is_hex b && uri_escaped r')%bool
        | _ => false
        end
      else (unreserved c && uri_escaped r)%bool
  end.

(* ================================================================== *)
(** * Properties                                                       *)
(* ================================================================== *)

Unset Implicit Arguments.

(** ** Runs of the embedded code *)

Example slugify_jelly : slugify "Jelly Bean!! #2" = "jelly-bean-2".
Proof. reflexivity. Qed.

Example stableId_padded :
  stableId (mkBean " a " "x" VUndefined VUndefined VUndefined VUndefined) 0 = " a ".
Proof. reflexivity. Qed.

Example stableId_blank :
  stableId (mkBean "  " "Jelly Bean!! #2" VUndefined VUndefined VUndefined VUndefined) 12
  = "name-jelly-bean-2-12".
Proof. reflexivity. Qed.

Example normalizeOne_aliases :
  normalizeOne (VObj [("_id", VNum "7"); ("id", VNull); ("flavor", VStr "Toasted Marshmallow");
                      ("category", VStr "Classic"); ("hex", VStr "#fff")])
  = Ok (mkBean "7" "Toasted Marshmallow" (VStr "") (VStr "") (VStr "Classic") (VStr "#fff")).
Proof. reflexivity. Qed.

Example normalizeOne_null :
  normalizeOne VNull = Ok (mkBean "" "Unknown" (VStr "") (VStr "") (VStr "") (VStr "")).
Proof. reflexivity. Qed.

Example sorted_desc :
  List.map name
    (ListView.sorted
       [mkBean "1" "Apple" VUndefined VUndefined VUndefined VUndefined;
        mkBean "2" "cherry" VUndefined VUndefined VUndefined VUndefined;
        mkBean "3" "Banana" VUndefined VUndefined VUndefined VUndefined]
       ListView.ByName ListView.Desc)
  = ["cherry"; "Banana"; "Apple"].
Proof. reflexivity. Qed.

Example allBuckets_four :
  GalleryView.allBuckets
    [with_group "Citrus" "Lemon"; with_group "Mint" "Spearmint";
     with_group "Berry" "Blueberry"; with_group "Tropical" "Mango";
     with_group "Mint" "Peppermint"]
  = Ok ["Berry"; "Citrus"; "Mint"; "Tropical"].
Proof. reflexivity. Qed.

Example bucketOf_blank_group :
  GalleryView.bucketOf (with_group " " "apple") = Ok "A".
Proof. reflexivity. Qed.

Example deep_link_offline :
  DetailView.deep_link "xyz" (Throw RequestFailed) (Throw RequestFailed) (Throw RequestFailed)
    (Throw RequestFailed) (Throw RequestFailed)
  = (DetailView.mkState None false (Some "Not found.") [] (-1),
     [DetailView.FetchBeanById "xyz"; DetailView.FetchAllIds]).
Proof. reflexivity. Qed.

Example deep_link_online :
  let pear := VObj [("id", VNum "7"); ("name", VStr "Pear")] in
  let listing := VObj [("data", VArr [VObj [("id", VNum "5")]; pear; VObj [("id", VNum "9")]])] in
  DetailView.deep_link "7" (Ok pear) (Ok listing) (Ok listing) (Ok listing) (Ok listing)
  = (DetailView.mkState (Some (mkBean "7" "Pear" (VStr "") (VStr "") (VStr "") (VStr "")))
       false None ["5"; "7"; "9"] 1,
     [DetailView.FetchBeanById "7"; DetailView.FetchAllIds]).
Proof. reflexivity. Qed.

(** The third row of a list of five: the detail page opens on it with both
    buttons enabled, and they lead to the second and the fourth row with the
    same five records attached. *)
Example third_of_five :
  let plain n := mkBean n n VUndefined VUndefined VUndefined VUndefined in
  let five := [plain "a"; plain "b"; plain "c"; plain "d"; plain "e"] in
  let nav := ListView.link five (plain "c") 2 in
  let st := fst (DetailView.mount "c" (state nav)) in
  nav = mkNavigation "/detail/c"
          (mkNav (Some ["a"; "b"; "c"; "d"; "e"]) (Some 2%Z) (Some FromList) (Some five))
  /\ st = DetailView.mkState (Some (plain "c")) false None ["a"; "b"; "c"; "d"; "e"] 2
  /\ DetailView.canPrev st = true /\ DetailView.canNext st = true
  /\ DetailView.goPrev (state nav) st
     = Some (mkNavigation "/detail/b"
               (mkNav (Some ["a"; "b"; "c"; "d"; "e"]) (Some 1%Z) (Some FromList) (Some five)))
  /\ DetailView.goNext (state nav) st
     = Some (mkNavigation "/detail/d"
               (mkNav (Some ["a"; "b"; "c"; "d"; "e"]) (Some 3%Z) (Some FromList) (Some five))).
Proof. repeat split. Qed.

Example filtered_ill_typed_group :
  ListView.filtered [mkBean "1" "Pear" VUndefined VUndefined (VNum "5") VUndefined] "x"
  = Throw TypeError.
Proof. reflexivity. Qed.

Example encodeURIComponent_markup :
  encodeURIComponent "<a b='1'>" = "%3Ca%20b%3D'1'%3E".
Proof. reflexivity. Qed.

Example placeholder_head :
  String.prefix "data:image/svg+xml;utf8,%3Csvg%20xmlns%3D'http%3A%2F%2Fwww.w3.org%2F2000%2Fsvg'%20width%3D'64'%20height%3D'64'%3E%0A%20%20%20%20%3Crect"
    (placeholder "Pear" 64 64) = true.
Proof. reflexivity. Qed.

Example String_own_toString :
  String_ (VObj [("toString", VNum "0")]) = Throw TypeError
  /\ String_ (VArr [VNum "1"; VNull; VArr [VStr "a"; VObj []]]) = Ok "1,,a,[object Object]"
  /\ String_ (VArr [VNum "1"; VObj [("toString", VNull)]]) = Throw TypeError.
Proof. repeat split. Qed.

(** A record whose id cannot be converted, met before the match, ends the
    search of [/api/beans]; [/api/flavors] is searched next. *)
Example fetchBeanById_unconvertible :
  let evil := VObj [("id", VObj [("toString", VNum "0")])] in
  let seven := VObj [("id", VNum "7"); ("name", VStr "Pear")] in
  DetailView.fetchBeanById "7" (Throw RequestFailed) (Ok (VArr [evil; seven]))
    (Throw RequestFailed) = Ok None
  /\ DetailView.fetchBeanById "7" (Ok (VArr [evil])) (Ok (VArr [seven])) (Throw RequestFailed)
     = Ok (Some (mkBean "7" "Pear" (VStr "") (VStr "") (VStr "") (VStr ""))).
Proof. repeat split. Qed.

(** ** Identifier resolver *)

Lemma trim_nonempty (s : string) : Js.trim s <> "" -> s <> "".
Proof. intros H E. subst s. apply H. reflexivity. Qed.

Lemma truthy_str_true (s : string) : Js.truthy_str s = true <-> s <> "".
Proof.
  unfold Js.truthy_str. rewrite negb_true_iff. apply String.eqb_neq.
Qed.

Lemma truthy_str_false (s : string) : Js.truthy_str s = false <-> s = "".
Proof.
  unfold Js.truthy_str. rewrite negb_false_iff. apply String.eqb_eq.
Qed.

Lemma slug_char_hyphen (c : ascii) : slug_char c = true -> Ascii.eqb c hyphen = false.
Proof.
  intros H. apply Ascii.eqb_neq. intros ->. discriminate H.
Qed.

Lemma strip_leading_replace_runs (s : string) :
  strip_leading (replace_runs false s) = replace_runs true s.
Proof.
  destruct s as [|c r]; simpl; [reflexivity|].
  destruct (slug_char c) eqn:Hc; simpl.
  - now rewrite (slug_char_hyphen _ Hc).
  - reflexivity.
Qed.

(** Inside a run, the output is empty or starts with a character of the
    class, so stripping at the end cannot empty it. *)
Lemma replace_runs_true_head (s : string) :
  replace_runs true s = "" \/
  exists c r, slug_char c = true /\ replace_runs true s = String c r.
Proof.
  induction s as [|c r IH]; simpl; [now left|].
  destruct (slug_char c) eqn:Hc; [right; eauto | exact IH].
Qed.

Lemma strip_trailing_cons (c : ascii) (s : string) :
  slug_char c = true -> strip_trailing (String c s) = String c (strip_trailing s).
Proof.
  intros Hc. destruct s; simpl; [|reflexivity].
  now rewrite (slug_char_hyphen _ Hc).
Qed.

Lemma pieces_nonempty (s : string) : pieces s <> [].
Proof.
  destruct s as [|c r]; simpl; [discriminate|].
  destruct (slug_char c); [destruct (pieces r)|]; discriminate.
Qed.

Lemma words_cons_slug (c : ascii) (r : string) :
  slug_char c = true ->
  exists w ws, pieces r = w :: ws /\
               words (String c r) = String c w :: List.filter Js.truthy_str ws.
Proof.
  intros Hc. unfold words. simpl. rewrite Hc.
  destruct (pieces r) as [|w ws] eqn:Hp; [now apply pieces_nonempty in Hp|].
  exists w, ws. split; [reflexivity|]. reflexivity.
Qed.

Lemma words_cons_other (c : ascii) (r : string) :
  slug_char c = false -> words (String c r) = words r.
Proof. intros Hc. unfold words. simpl. now rewrite Hc. Qed.

Lemma concat_words_empty (s : string) :
  String.concat "-" (words s) = "" -> words s = [].
Proof.
  unfold words. destruct (List.filter Js.truthy_str (pieces s)) as [|w ws] eqn:Hf;
    [reflexivity|].
  assert (Hw : Js.truthy_str w = true).
  { assert (Hin : In w (List.filter Js.truthy_str (pieces s))) by (rewrite Hf; now left).
    apply filter_In in Hin. tauto. }
  apply truthy_str_true in Hw. destruct w as [|a w]; [congruence|].
  simpl. destruct ws; discriminate.
Qed.

Lemma strip_trailing_replace_runs (s : string) :
  strip_trailing (replace_runs true s) = String.concat "-" (words s).
Proof.
  induction s as [|c r IH]; [reflexivity|].
  simpl replace_runs. destruct (slug_char c) eqn:Hc.
  2:{ now rewrite words_cons_other. }
  rewrite (strip_trailing_cons c _ Hc).
  destruct (words_cons_slug c r Hc) as (w & ws & Hp & Hw). rewrite Hw.
  destruct r as [|c' r'].
  { simpl in Hp. injection Hp as <- <-. reflexivity. }
  simpl replace_runs. simpl in IH. simpl in Hp.
  destruct (slug_char c') eqn:Hc'.
  - (* the word continues *)
    rewrite IH. unfold words. simpl pieces. rewrite Hc'.
    destruct (pieces r') as [|w' ws'] eqn:Hp'; [now apply pieces_nonempty in Hp'|].
    injection Hp as <- <-. simpl.
    destruct (List.filter Js.truthy_str ws'); reflexivity.
  - (* the word ends and a run starts *)
    injection Hp as <- <-. fold (words r').
    rewrite (words_cons_other c' r' Hc') in IH.
    destruct (replace_runs_true_head r') as [E | (d & t & Hd & E)].
    + rewrite E in *. simpl in IH. symmetry in IH.
      apply concat_words_empty in IH. rewrite IH. reflexivity.
    + rewrite E in *. rewrite (strip_trailing_cons d t Hd) in IH.
      change (strip_trailing (String hyphen (String d t)))
        with (String hyphen (strip_trailing (String d t))).
      rewrite (strip_trailing_cons d t Hd). rewrite IH.
      destruct (words r') as [|w' ws'] eqn:Hw'; [discriminate IH|].
      reflexivity.
Qed.

Lemma slugify_words (n : string) :
  slugify n = String.concat "-" (words (Js.toLowerCase n)).
Proof.
  unfold slugify, strip_hyphens.
  now rewrite strip_leading_replace_runs, strip_trailing_replace_runs.
Qed.

Lemma stableId_cases (b : Bean) (i : nat) :
  stableId b i =
    if Js.trim (id b) =? ""
    then ("name-" ++ slugify (name b) ++ "-" ++ Js.show_index i)%string
    else id b.
Proof.
  unfold stableId, Js.truthy_str.
  destruct (Js.trim (id b) =? "") eqn:Ht; simpl.
  - now rewrite andb_false_r.
  - apply String.eqb_neq in Ht. apply trim_nonempty in Ht.
    apply String.eqb_neq in Ht. now rewrite Ht.
Qed.

(** C1, as the specification states it, fails: an id with white space around
    it is returned as it is, not trimmed. *)
Lemma stableId_not_trimmed :
  let b := mkBean " a " "x" VUndefined VUndefined VUndefined VUndefined in
  Js.trim (id b) <> "" /\ stableId b 0 <> Js.trim (id b).
Proof. split; discriminate. Qed.

(** C1 (amended): for every bean and index the identifier is not empty; it is
    the bean's own id, unchanged and not trimmed, when the trimmed id is not
    empty, and ["name-" + slug(name) + "-" + i] otherwise, where the slug is
    the words of the lower-cased name (its maximal runs of [[a-z0-9]]) joined
    by single hyphens, so without a hyphen at either end; the slug of
    ["Jelly Bean!! #2"] is ["jelly-bean-2"]. *)
Theorem stableId_contract (b : Bean) (i : nat) :
  stableId b i <> ""
  /\ stableId b i =
       (if Js.trim (id b) =? ""
        then ("name-" ++ slugify (name b) ++ "-" ++ Js.show_index i)%string
        else id b)
  /\ slugify (name b) = String.concat "-" (words (Js.toLowerCase (name b)))
  /\ slugify "Jelly Bean!! #2" = "jelly-bean-2".
Proof.
  split; [|split; [apply stableId_cases | split; [apply slugify_words | reflexivity]]].
  rewrite stableId_cases.
  destruct (Js.trim (id b) =? "") eqn:Ht; [discriminate|].
  apply String.eqb_neq in Ht. now apply trim_nonempty.
Qed.

(** ** Record normaliser *)

Lemma coalesce_first (r : value) (k : string) (aliases : list string) (default : value) :
  get r k ?? first_non_nullish aliases r default
  = first_non_nullish (k :: aliases) r default.
Proof.
  unfold first_non_nullish, coalesce. simpl.
  destruct (nullish (get r k)); reflexivity.
Qed.

Lemma first_non_nullish_nil (r default : value) :
  default = first_non_nullish [] r default.
Proof. reflexivity. Qed.

(** The value an alias list selects is the value of one of its aliases, and
    every alias before it is absent or [null]. *)
Lemma first_non_nullish_priority (aliases : list string) (r default : value) :
  (exists before k after,
      aliases = before ++ k :: after
      /\ Forall (fun k' => nullish (get r k') = true) before
      /\ nullish (get r k) = false
      /\ first_non_nullish aliases r default = get r k)
  \/ (Forall (fun k' => nullish (get r k') = true) aliases
      /\ first_non_nullish aliases r default = default).
Proof.
  unfold first_non_nullish.
  induction aliases as [|k rest IH]; simpl.
  - right. split; [constructor | reflexivity].
  - destruct (nullish (get r k)) eqn:Hk; simpl.
    + destruct IH as [(before & k' & after & -> & Hb & Hk' & E) | (Hall & E)].
      * left. exists (k :: before), k', after. repeat split; auto.
      * right. split; auto.
    + left. exists [], k, rest. repeat split; auto.
Qed.

Lemma value_induction (P : value -> Prop) :
  P VUndefined -> P VNull -> (forall b, P (VBool b)) -> (forall r, P (VNum r)) ->
  (forall s, P (VStr s)) ->
  (forall items, Forall P items -> P (VArr items)) ->
  (forall fields, Forall (fun kv => P (snd kv)) fields -> P (VObj fields)) ->
  forall v, P v.
Proof.
  intros Hu Hn Hb Hr Hs Ha Ho.
  refine (fix F (v : value) : P v :=
            match v with
            | VUndefined => Hu
            | VNull => Hn
            | VBool b => Hb b
            | VNum r => Hr r
            | VStr s => Hs s
            | VArr items =>
                Ha items
                  ((fix G (l : list value) : Forall P l :=
                      match l with
                      | [] => Forall_nil P
                      | x :: rest => Forall_cons x (F x) (G rest)
                      end) items)
            | VObj fields =>
                Ho fields
                  ((fix G (l : list (string * value)) : Forall (fun kv => P (snd kv)) l :=
                      match l with
                      | [] => Forall_nil _
                      | kv :: rest => Forall_cons kv (F (snd kv)) (G rest)
                      end) fields)
            end).
Qed.

(** [String] converts every plain value. *)
Lemma String_plain (v : value) : plain v = true -> exists s, String_ v = Ok s.
Proof.
  induction v as [| |b|r|s|items IH|fields _] using value_induction;
    try (intros _; simpl; eauto; fail).
  - destruct b; simpl; eauto.
  - intros Hp. simpl in Hp.
    assert (J : exists parts,
               (fix join (elements : list value) : result (list string) :=
                  match elements with
                  | [] => Ok []
                  | e :: rest =>
                      let* s := match e with
                                | VUndefined | VNull => Ok ""
                                | _ => String_ e
                                end in
                      let* ss := join rest in
                      Ok (s :: ss)
                  end) items = Ok parts).
    { induction IH as [|e rest He _ IHrest]; [eauto|].
      simpl in Hp. apply andb_true_iff in Hp. destruct Hp as [Hpe Hprest].
      destruct (IHrest Hprest) as [parts Hparts].
      destruct (He Hpe) as [s Hs].
      rewrite Hparts.
      destruct e; try (rewrite Hs); simpl; eauto. }
    destruct J as [parts J]. simpl. rewrite J. simpl. eauto.
  - intros Hp. simpl in Hp. apply andb_true_iff in Hp. destruct Hp as [Hk _].
    apply negb_true_iff in Hk. simpl. rewrite Hk. eauto.
Qed.

Lemma assoc_plain (k : string) (fields : list (string * value)) :
  List.forallb (fun kv => plain (snd kv)) fields = true -> plain (assoc k fields) = true.
Proof.
  induction fields as [|[k' v] rest IH]; simpl; [reflexivity|].
  rewrite andb_true_iff. intros [Hv Hrest]. destruct (k' =? k); auto.
Qed.

Lemma get_plain (r : value) (k : string) : plain r = true -> plain (get r k) = true.
Proof.
  destruct r; simpl; try reflexivity.
  rewrite andb_true_iff. intros [_ H]. now apply assoc_plain.
Qed.

Lemma coalesce_plain (a b : value) :
  plain a = true -> plain b = true -> plain (a ?? b) = true.
Proof. intros Ha Hb. unfold coalesce. now destruct (nullish a). Qed.

Lemma first_non_nullish_plain (aliases : list string) (r default : value) :
  plain r = true -> plain default = true ->
  plain (first_non_nullish aliases r default) = true.
Proof.
  intros Hr Hd. unfold first_non_nullish.
  destruct (List.find _ aliases); [now apply get_plain | exact Hd].
Qed.

(** The normaliser, with the alias lists of the specification. *)
Lemma normalizeOne_aliases_eq (raw : value) :
  normalizeOne raw =
    (let* i := String_ (first_non_nullish ["id"; "_id"; "beanId"; "Id"; "ID"] raw (VStr "")) in
     let* n := String_ (first_non_nullish ["name"; "flavor"; "title"] raw (VStr "Unknown")) in
     Ok (mkBean i n
           (first_non_nullish ["description"; "desc"; "about"] raw (VStr ""))
           (first_non_nullish ["imageUrl"; "image"; "img"; "photoUrl"; "thumbnail"] raw
              (VStr ""))
           (first_non_nullish ["group"; "category"; "type"; "family"] raw (VStr ""))
           (first_non_nullish ["color"; "hexColor"; "hex"] raw (VStr "")))).
Proof.
  unfold normalizeOne.
  rewrite (first_non_nullish_nil raw (VStr "")).
  rewrite (first_non_nullish_nil raw (VStr "Unknown")).
  now rewrite !coalesce_first.
Qed.

Lemma normalizeOne_plain (raw : value) :
  plain raw = true -> exists b, normalizeOne raw = Ok b.
Proof.
  intros Hp. rewrite normalizeOne_aliases_eq.
  destruct (String_plain (first_non_nullish ["id"; "_id"; "beanId"; "Id"; "ID"] raw (VStr "")))
    as [i ->]; [now apply first_non_nullish_plain|].
  destruct (String_plain (first_non_nullish ["name"; "flavor"; "title"] raw (VStr "Unknown")))
    as [n ->]; [now apply first_non_nullish_plain|].
  simpl. eauto.
Qed.

(** C2: [normalizeOne] does not return on every value.  On a record whose
    id (or name) is an object with a key [toString], [String] throws
    [TypeError] and so does the normaliser, where the specification has it
    degrade to a default.  On every other path the contract holds: the id
    is [String] of the first non-nullish field among id, _id, beanId, Id,
    ID, else the empty string; the name is [String] of the first
    non-nullish field among name, flavor, title, else ["Unknown"];
    description, imageUrl, group and color are the first non-nullish value
    of their alias lists, else the empty string; and a bean is returned for
    every value that holds no key [toString]. *)
Theorem normalizeOne_throws_on_toString :
  normalizeOne (VObj [("id", VObj [("toString", VNum "0")])]) = Throw TypeError
  /\ normalizeOne (VObj [("id", VNum "1"); ("name", VArr [VObj [("toString", VNull)]])])
     = Throw TypeError
  /\ (forall raw,
        normalizeOne raw =
          (let* i := String_ (first_non_nullish ["id"; "_id"; "beanId"; "Id"; "ID"] raw
                               (VStr "")) in
           let* n := String_ (first_non_nullish ["name"; "flavor"; "title"] raw
                               (VStr "Unknown")) in
           Ok (mkBean i n
                 (first_non_nullish ["description"; "desc"; "about"] raw (VStr ""))
                 (first_non_nullish ["imageUrl"; "image"; "img"; "photoUrl"; "thumbnail"]
                    raw (VStr ""))
                 (first_non_nullish ["group"; "category"; "type"; "family"] raw (VStr ""))
                 (first_non_nullish ["color"; "hexColor"; "hex"] raw (VStr "")))))
  /\ (forall raw, plain raw = true -> exists b, normalizeOne raw = Ok b).
Proof.
  split; [reflexivity|]. split; [reflexivity|].
  split; [apply normalizeOne_aliases_eq | apply normalizeOne_plain].
Qed.

Lemma normalizeOne_throws_on_toString_witness :
  exists b, normalizeOne (VObj [("ID", VArr [VNum "4"; VNull]); ("title", VBool true)]) = Ok b.
Proof.
  apply (proj2 (proj2 (proj2 normalizeOne_throws_on_toString))). reflexivity.
Defined.

(** ** Source fetcher and the load effect of the List and Gallery pages *)


(** One [try] or [catch] body of [fetchBeans] is the procedure run on the
    answer of its endpoint. *)
Lemma endpoint_body (r : response) :
  (let* data := r in
   let* beans := array_map normalizeOne (unwrap data) in
   Ok (List.filter has_id_and_name beans))
  = collection_of r.
Proof.
  destruct r as [data|e]; [|reflexivity].
  destruct data as [| |b|n|s|items|fields]; try reflexivity.
  simpl. unfold coalesce. destruct (assoc "data" fields); reflexivity.
Qed.

Lemma fetchBeans_chain (beansA flavorsB : response) :
  fetchBeans beansA flavorsB = try_catch (collection_of beansA) (collection_of flavorsB).
Proof. unfold fetchBeans. now rewrite !endpoint_body. Qed.



Lemma load_unmounted (mockData : list value) (beansA flavorsB : response) (st : Loaded) :
  load mockData false beansA flavorsB st = st.
Proof. unfold load. destruct (fetchBeans beansA flavorsB); reflexivity. Qed.






(** ** Detail page: the deep-link path *)

Module DetailFacts.
Import DetailView.

Lemma try_catch_total {A : Type} (body : result A) (a : A) :
  exists r, try_catch body (Ok a) = Ok r.
Proof. destruct body; simpl; eauto. Qed.

Lemma or_else_total (stage next : result (option Bean)) :
  (exists r, stage = Ok r) -> (exists r, next = Ok r) ->
  exists r, or_else stage next = Ok r.
Proof.
  intros [[b|] ->] [r ->]; simpl; eauto.
Qed.

(** Every failure inside [fetchBeanById] is caught inside it. *)
Lemma fetchBeanById_total (id : string) (one beansA flavorsB : response) :
  exists found, fetchBeanById id one beansA flavorsB = Ok found.
Proof.
  unfold fetchBeanById.
  match goal with
  | |- exists _, try_catch ?body ?handler = _ =>
      assert (H : exists r, handler = Ok r)
  end.
  { repeat apply or_else_total; eauto using try_catch_total. }
  destruct H as [r ->].
  match goal with
  | |- exists _, try_catch ?body _ = _ => destruct body
  end; simpl; eauto.
Qed.

Lemma fetchBeanById_offline (id : string) (e1 e2 e3 : exn) :
  fetchBeanById id (Throw e1) (Throw e2) (Throw e3) = Ok None.
Proof. reflexivity. Qed.

Lemma effectB_settled_error (found : option Bean) (st : State) :
  error (effectB_settled true (Ok found) st) =
    match found with Some _ => None | None => Some "Not found." end.
Proof. destruct found; reflexivity. Qed.

Lemma mount_deep_link (id : string) :
  mount id (mkNav None None None None)
  = (mkState None true None [] (-1), [FetchBeanById id; FetchAllIds]).
Proof. reflexivity. Qed.

Lemma effectD_fetchless (id : string) (seen st : State) :
  bean (effectD id seen st) = bean st
  /\ loading (effectD id seen st) = loading st
  /\ error (effectD id seen st) = error st
  /\ ids (effectD id seen st) = ids st.
Proof.
  unfold effectD.
  destruct (_ || _ || _)%bool; simpl; auto.
Qed.

(** Whatever the five requests answer, a deep link starts each call once
    and ends on the outcome of [fetchBeanById]. *)
Lemma deep_link_outcome (id : string) (one beansA1 flavorsB1 beansA2 flavorsB2 : response) :
  exists found,
    fetchBeanById id one beansA1 flavorsB1 = Ok found
    /\ snd (deep_link id one beansA1 flavorsB1 beansA2 flavorsB2)
       = [FetchBeanById id; FetchAllIds]
    /\ bean (fst (deep_link id one beansA1 flavorsB1 beansA2 flavorsB2)) = found
    /\ loading (fst (deep_link id one beansA1 flavorsB1 beansA2 flavorsB2)) = false
    /\ error (fst (deep_link id one beansA1 flavorsB1 beansA2 flavorsB2))
       = match found with Some _ => None | None => Some "Not found." end.
Proof.
  destruct (fetchBeanById_total id one beansA1 flavorsB1) as [found Hf].
  exists found. split; [exact Hf|].
  unfold deep_link. rewrite mount_deep_link, Hf. clear Hf.
  destruct (fetchAllIds beansA2 flavorsB2) as [[|i l]|e], found as [b|];
    try (repeat split; fail);
    unfold rerun;
    cbn [effectB_settled effectC_settled negb setIds setLoading setError setBean ids
         length Nat.eqb bean loading error idx effectC has_beans nav_beans];
    match goal with
    | |- context [effectD id ?seen ?st] =>
        destruct (effectD_fetchless id seen st) as (Hb & Hl & He & _);
        cbn [fst snd]; rewrite Hb, Hl, He
    end; repeat split.
Qed.

End DetailFacts.

(** C4, as the specification states it, fails.  With every request failing,
    the page ends on "Not found.", not on "Failed to load"; and when only
    the two requests of the identifier list fail, it shows the record and no
    message at all. *)
Lemma deep_link_failure_not_surfaced :
  let down := @Throw value RequestFailed in
  let pear := VObj [("id", VNum "7"); ("name", VStr "Pear")] in
  let passed := mkNav None None None None in
  let offline := fst (DetailView.deep_link "7" down down down down down) in
  let listless := fst (DetailView.deep_link "7" (Ok pear) down down down down) in
  DetailView.render passed offline = DetailView.Message "Not found."
  /\ DetailView.error offline <> Some "Failed to load item."
  /\ DetailView.fetchAllIds down down = Throw RequestFailed
  /\ DetailView.render passed listless
     = DetailView.Details (mkBean "7" "Pear" (VStr "") (VStr "") (VStr "") (VStr ""))
         false false "/list"
  /\ DetailView.error listless = None.
Proof. repeat split. discriminate. Qed.

(** C4 (amended): on the deep-link path no failure is shown as "Failed to
    load item.".  [fetchBeanById] catches every failure of its three stages
    and resolves, to [null] when all of them fail, which the page shows as
    the final message "Not found."; an exception of [fetchAllIds] is caught
    and ignored, leaving the state as it was (Prev and Next stay disabled).
    Each of the two calls is started once: nothing is retried. *)
Theorem deep_link_failures (id : string) (one beansA1 flavorsB1 beansA2 flavorsB2 : response)
    (e1 e2 e3 e4 e5 : exn) (st : DetailView.State) :
  (exists found, DetailView.fetchBeanById id one beansA1 flavorsB1 = Ok found)
  /\ DetailView.error (fst (DetailView.deep_link id one beansA1 flavorsB1 beansA2 flavorsB2))
     <> Some "Failed to load item."
  /\ snd (DetailView.deep_link id one beansA1 flavorsB1 beansA2 flavorsB2)
     = [DetailView.FetchBeanById id; DetailView.FetchAllIds]
  /\ DetailView.effectB_settled true
       (DetailView.fetchBeanById id (Throw e1) (Throw e2) (Throw e3)) st
     = DetailView.mkState None false (Some "Not found.")
         (DetailView.ids st) (DetailView.idx st)
  /\ DetailView.fetchAllIds (Throw e4) (Throw e5) = Throw e5
  /\ DetailView.effectC_settled true (DetailView.fetchAllIds (Throw e4) (Throw e5)) st = st
  /\ DetailView.deep_link id (Throw e1) (Throw e2) (Throw e3) (Throw e4) (Throw e5)
     = (DetailView.mkState None false (Some "Not found.") [] (-1),
        [DetailView.FetchBeanById id; DetailView.FetchAllIds])
  /\ DetailView.render (mkNav None None None None)
       (DetailView.mkState None false (Some "Not found.") [] (-1))
     = DetailView.Message "Not found.".
Proof.
  destruct (DetailFacts.deep_link_outcome id one beansA1 flavorsB1 beansA2 flavorsB2)
    as (found & Hf & Hcalls & _ & _ & Herr).
  split; [eauto|]. split; [rewrite Herr; destruct found; discriminate|].
  split; [exact Hcalls|]. repeat split.
Qed.

(** ** Detail page: Previous and Next *)

Module NavFacts.
Import DetailView.

Lemma canPrev_spec (st : State) : canPrev st = true <-> (0 < idx st)%Z.
Proof. unfold canPrev. rewrite Z.gtb_ltb. apply Z.ltb_lt. Qed.

Lemma canNext_spec (st : State) :
  canNext st = true <-> (0 <= idx st < Z.of_nat (List.length (ids st)) - 1)%Z.
Proof.
  unfold canNext. rewrite andb_true_iff, Z.geb_le, Z.ltb_lt. tauto.
Qed.

Lemma at_index_in_range {A : Type} (arr : list A) (i : Z) :
  (0 <= i < Z.of_nat (List.length arr))%Z ->
  exists x, at_index arr i = Some x /\ List.nth_error arr (Z.to_nat i) = Some x.
Proof.
  intros [Hlo Hhi]. unfold at_index.
  destruct (i <? 0)%Z eqn:Hneg; [apply Z.ltb_lt in Hneg; lia|].
  destruct (List.nth_error arr (Z.to_nat i)) as [x|] eqn:Hn; [eauto|].
  apply List.nth_error_None in Hn. lia.
Qed.

Lemma goPrev_enabled (passed : NavState) (st : State) :
  canPrev st = true ->
  goPrev passed st =
    Some (mkNavigation (detail_path (at_index (ids st) (idx st - 1)))
            (mkNav (Some (ids st)) (Some (idx st - 1)%Z)
               (nav_from passed) (nav_beans passed))).
Proof. intros H. unfold goPrev. now rewrite H. Qed.

Lemma goNext_enabled (passed : NavState) (st : State) :
  canNext st = true ->
  goNext passed st =
    Some (mkNavigation (detail_path (at_index (ids st) (idx st + 1)))
            (mkNav (Some (ids st)) (Some (idx st + 1)%Z)
               (nav_from passed) (nav_beans passed))).
Proof. intros H. unfold goNext. now rewrite H. Qed.

Lemma map_from_length {A B : Type} (f : A -> nat -> B) (i : nat) (arr : list A) :
  List.length (map_from f i arr) = List.length arr.
Proof.
  revert i. induction arr as [|x rest IH]; intros i; simpl; [reflexivity|].
  now rewrite IH.
Qed.

Lemma indexOf_from_range (arr : list string) (x : string) (i : Z) :
  indexOf_from i arr x = (-1)%Z
  \/ (i <= indexOf_from i arr x < i + Z.of_nat (List.length arr))%Z.
Proof.
  revert i. induction arr as [|y rest IH]; intros i; simpl; [now left|].
  destruct (y =? x); [right; lia|].
  destruct (IH (i + 1)%Z) as [H | H]; [now left | right; lia].
Qed.

(** With a collection carried, effect A leaves an index inside the list
    of identifiers. *)
Lemma effectA_in_range (id : string) (passed : NavState) (seen : State) :
  has_beans passed = true ->
  (0 <= idx (effectA id passed seen)
   < Z.of_nat (List.length (ids (effectA id passed seen))))%Z.
Proof.
  unfold has_beans, effectA. destruct (nav_beans passed) as [[|b rest]|]; try discriminate.
  intros _. cbn [List.length Nat.eqb negb].
  cbn [idx ids setIds setIdx setBean setLoading setError].
  unfold map_index. rewrite map_from_length.
  destruct (indexOf_from_range (map_from stableId 0 (b :: rest)) id 0) as [H | H];
    unfold indexOf.
  - rewrite H. simpl. lia.
  - rewrite map_from_length in H.
    destruct (_ >=? 0)%Z eqn:E; simpl in *; lia.
Qed.

End NavFacts.

(** C5: Previous is enabled exactly when the index is greater than 0 and
    Next exactly when it is at least 0 and less than the number of
    identifiers minus 1; a disabled button does nothing; an enabled one
    navigates to the identifier at index-1 (index+1) of the identifier list
    of the page, and sends that same list, the index-1 (index+1), the origin
    and the record collection that was carried in, unchanged.  (For
    Previous the identifier exists when the index lies within the list,
    which effect A sees to whenever a collection is carried.) *)
Theorem prev_next_contract (passed : NavState) (st : DetailView.State) :
  (DetailView.canPrev st = true <-> (0 < DetailView.idx st)%Z)
  /\ (DetailView.canNext st = true <->
      (0 <= DetailView.idx st
       < Z.of_nat (List.length (DetailView.ids st)) - 1)%Z)
  /\ (DetailView.canPrev st = false -> DetailView.goPrev passed st = None)
  /\ (DetailView.canNext st = false -> DetailView.goNext passed st = None)
  /\ (DetailView.canPrev st = true ->
      (DetailView.idx st <= Z.of_nat (List.length (DetailView.ids st)))%Z ->
      exists target,
        List.nth_error (DetailView.ids st) (Z.to_nat (DetailView.idx st - 1)) = Some target
        /\ DetailView.goPrev passed st =
             Some (mkNavigation ("/detail/" ++ target)
                     (mkNav (Some (DetailView.ids st)) (Some (DetailView.idx st - 1)%Z)
                        (nav_from passed) (nav_beans passed))))
  /\ (DetailView.canNext st = true ->
      exists target,
        List.nth_error (DetailView.ids st) (Z.to_nat (DetailView.idx st + 1)) = Some target
        /\ DetailView.goNext passed st =
             Some (mkNavigation ("/detail/" ++ target)
                     (mkNav (Some (DetailView.ids st)) (Some (DetailView.idx st + 1)%Z)
                        (nav_from passed) (nav_beans passed)))).
Proof.
  split; [apply NavFacts.canPrev_spec|].
  split; [apply NavFacts.canNext_spec|].
  split; [intros H; unfold DetailView.goPrev; now rewrite H|].
  split; [intros H; unfold DetailView.goNext; now rewrite H|].
  split.
  - intros Hp Hlen. pose proof (proj1 (NavFacts.canPrev_spec st) Hp) as Hpos.
    destruct (NavFacts.at_index_in_range (DetailView.ids st) (DetailView.idx st - 1))
      as (target & Hat & Hnth); [lia|].
    exists target. split; [exact Hnth|].
    rewrite (NavFacts.goPrev_enabled passed st Hp), Hat. reflexivity.
  - intros Hn. pose proof (proj1 (NavFacts.canNext_spec st) Hn) as Hrange.
    destruct (NavFacts.at_index_in_range (DetailView.ids st) (DetailView.idx st + 1))
      as (target & Hat & Hnth); [lia|].
    exists target. split; [exact Hnth|].
    rewrite (NavFacts.goNext_enabled passed st Hn), Hat. reflexivity.
Qed.

Lemma prev_next_contract_witness :
  let beans := [with_group "Mint" "a"; with_group "Mint" "b"; with_group "Mint" "c"] in
  let passed := mkNav (Some ["a"; "b"; "c"]) (Some 1%Z) (Some FromList) (Some beans) in
  let st := DetailView.mkState (Some (with_group "Mint" "b")) false None ["a"; "b"; "c"] 1 in
  (exists target,
     List.nth_error ["a"; "b"; "c"] 0 = Some target
     /\ DetailView.goPrev passed st =
          Some (mkNavigation ("/detail/" ++ target)
                  (mkNav (Some ["a"; "b"; "c"]) (Some 0%Z) (Some FromList) (Some beans))))
  /\ (exists target,
        List.nth_error ["a"; "b"; "c"] 2 = Some target
        /\ DetailView.goNext passed st =
             Some (mkNavigation ("/detail/" ++ target)
                     (mkNav (Some ["a"; "b"; "c"]) (Some 2%Z) (Some FromList) (Some beans)))).
Proof.
  intros beans passed st.
  destruct (prev_next_contract passed st) as (_ & _ & _ & _ & Hprev & Hnext).
  split; [apply Hprev; [reflexivity | simpl; lia] | apply Hnext; reflexivity].
Defined.

(** ** Detail page: a carried collection the route id is not part of *)

Lemma indexOf_from_absent (arr : list string) (x : string) (i : Z) :
  ~ In x arr -> indexOf_from i arr x = (-1)%Z.
Proof.
  revert i. induction arr as [|y rest IH]; intros i Hx; simpl; [reflexivity|].
  destruct (y =? x) eqn:E.
  - apply String.eqb_eq in E. subst y. exfalso. apply Hx. now left.
  - apply IH. intros Hin. apply Hx. now right.
Qed.

Lemma indexOf_from_found (arr : list string) (x : string) (i : Z) :
  indexOf_from i arr x <> (-1)%Z -> (0 <= i)%Z ->
  (i <= indexOf_from i arr x < i + Z.of_nat (List.length arr))%Z
  /\ List.nth_error arr (Z.to_nat (indexOf_from i arr x - i)) = Some x.
Proof.
  revert i. induction arr as [|y rest IH]; intros i Hne Hi; simpl in *; [congruence|].
  destruct (y =? x) eqn:E.
  - apply String.eqb_eq in E. subst y. rewrite Z.sub_diag. simpl. split; [lia | reflexivity].
  - destruct (IH (i + 1)%Z Hne) as [Hr Hn]; [lia|]. split; [lia|].
    replace (Z.to_nat (indexOf_from (i + 1) rest x - i))
      with (S (Z.to_nat (indexOf_from (i + 1) rest x - (i + 1)))) by lia.
    exact Hn.
Qed.

(** Whoever issues the navigation, the page processes it from a state whose
    index is not negative, so effect D stays idle. *)
Lemma entry_index (nav : Navigation) (seen : DetailView.State) :
  entry nav seen -> (0 <= DetailView.idx seen)%Z.
Proof.
  intros [sorted b i _ | filtered b i _ | passed st nav' H | passed st nav' H].
  - simpl. lia.
  - simpl. lia.
  - unfold DetailView.goPrev in H.
    destruct (DetailView.canPrev st) eqn:Hp; [|discriminate].
    apply NavFacts.canPrev_spec in Hp. lia.
  - unfold DetailView.goNext in H.
    destruct (DetailView.canNext st) eqn:Hn; [|discriminate].
    apply NavFacts.canNext_spec in Hn. lia.
Qed.

Lemma effectD_idle (id : string) (seen st : DetailView.State) :
  (0 <= DetailView.idx seen)%Z -> DetailView.effectD id seen st = st.
Proof.
  intros H. unfold DetailView.effectD.
  apply Z.geb_le in H. now rewrite H.
Qed.

(** C10: when the navigation carries a non-empty record collection and the
    route id is none of the identifiers recomputed over it, the page takes
    the first record of the collection and index 0, is not loading and has
    no error, so it renders that record and never "Not found."; the effects
    start no call, B and C returning at their guard, and the render that
    follows changes nothing. *)
Theorem carried_collection_fallback (nav : Navigation) (seen : DetailView.State)
    (id : string) (first : Bean) (rest : list Bean) (c_runs : bool) :
  entry nav seen ->
  nav_beans (state nav) = Some (first :: rest) ->
  ~ In id (map_index stableId (first :: rest)) ->
  let shown :=
    DetailView.mkState (Some first) false None (map_index stableId (first :: rest)) 0 in
  DetailView.commit id (state nav) c_runs seen = (shown, [])
  /\ DetailView.effectB id (state nav) seen = (seen, [])
  /\ DetailView.effectC (state nav) seen seen = (seen, [])
  /\ DetailView.rerun id (state nav) seen shown = (shown, [])
  /\ (exists next back,
        DetailView.render (state nav) shown = DetailView.Details first false next back)
  /\ DetailView.render (state nav) shown <> DetailView.Message "Not found.".
Proof.
  intros Hentry Hbeans Hid shown.
  pose proof (entry_index nav seen Hentry) as Hidx.
  assert (Hguard : DetailView.has_beans (state nav) = true).
  { unfold DetailView.has_beans. now rewrite Hbeans. }
  assert (HA : DetailView.effectA id (state nav) seen = shown).
  { unfold DetailView.effectA. rewrite Hbeans.
    cbn [List.length Nat.eqb negb].
    unfold indexOf. rewrite (indexOf_from_absent _ _ 0%Z Hid). reflexivity. }
  assert (HB : forall st, DetailView.effectB id (state nav) st = (st, [])).
  { intros st. unfold DetailView.effectB. now rewrite Hguard. }
  assert (HC : forall s st, DetailView.effectC (state nav) s st = (st, [])).
  { intros s st. unfold DetailView.effectC. now rewrite Hguard. }
  split.
  { unfold DetailView.commit. rewrite HA, HB.
    destruct c_runs; [rewrite HC|]; now rewrite (effectD_idle id seen shown Hidx). }
  split; [apply HB|]. split; [apply HC|].
  split.
  { unfold DetailView.rerun.
    destruct (_ =? _)%nat; [|rewrite HC];
      now rewrite (effectD_idle id shown shown) by (simpl; lia). }
  split; [|discriminate].
  unfold DetailView.render. simpl. eauto.
Qed.

Lemma carried_collection_fallback_witness :
  let beans := [with_group "Mint" "a"; with_group "Mint" "b"] in
  let nav := ListView.link beans (with_group "Mint" "b") 1 in
  DetailView.mount "b?x" (state nav)
  = (DetailView.mkState (Some (with_group "Mint" "a")) false None ["a"; "b"] 0, []).
Proof.
  intros beans nav.
  refine (proj1 (carried_collection_fallback nav (DetailView.initial (state nav)) "b?x"
                   (with_group "Mint" "a") [with_group "Mint" "b"] true _ _ _)).
  - apply entry_from_list. reflexivity.
  - reflexivity.
  - simpl. intros [H | [H | []]]; discriminate H.
Defined.

(** ** Sorting *)

Section SortFacts.

Variable A : Type.
Variable cmp : A -> A -> Z.

Lemma insert_perm (x : A) (arr : list A) : Permutation (insert cmp x arr) (x :: arr).
Proof.
  induction arr as [|y rest IH]; simpl; [reflexivity|].
  destruct (cmp x y <=? 0)%Z; [reflexivity|].
  rewrite IH. apply perm_swap.
Qed.

Lemma array_sort_perm (arr : list A) : Permutation (array_sort cmp arr) arr.
Proof.
  induction arr as [|x rest IH]; simpl; [reflexivity|].
  rewrite insert_perm. now constructor.
Qed.

(** Stability: an element never passes one of its own class. *)
Lemma insert_filter (p : A -> bool) (x : A) (arr : list A) :
  (forall a b, p a = true -> p b = true -> (cmp a b <= 0)%Z) ->
  List.filter p (insert cmp x arr) = List.filter p (x :: arr).
Proof.
  intros Hclass. induction arr as [|y rest IH]; [reflexivity|].
  simpl insert. destruct (cmp x y <=? 0)%Z eqn:Hxy; [reflexivity|].
  apply Z.leb_gt in Hxy.
  change (List.filter p (y :: insert cmp x rest))
    with (if p y then y :: List.filter p (insert cmp x rest)
          else List.filter p (insert cmp x rest)).
  rewrite IH. simpl.
  destruct (p x) eqn:Hx, (p y) eqn:Hy; try reflexivity.
  specialize (Hclass x y Hx Hy). lia.
Qed.

Lemma array_sort_filter (p : A -> bool) (arr : list A) :
  (forall a b, p a = true -> p b = true -> (cmp a b <= 0)%Z) ->
  List.filter p (array_sort cmp arr) = List.filter p arr.
Proof.
  intros Hclass. induction arr as [|x rest IH]; [reflexivity|].
  simpl array_sort. rewrite insert_filter by assumption.
  simpl. now rewrite IH.
Qed.

Variable le : A -> A -> Prop.
Hypothesis cmp_le : forall a b, (cmp a b <= 0)%Z <-> le a b.
Hypothesis le_total : forall a b, le a b \/ le b a.
Hypothesis le_trans : forall a b c, le a b -> le b c -> le a c.

Lemma insert_sorted (x : A) (arr : list A) :
  StronglySorted le arr -> StronglySorted le (insert cmp x arr).
Proof.
  induction 1 as [|y rest Hs IH Hy]; simpl.
  - repeat constructor.
  - destruct (cmp x y <=? 0)%Z eqn:Hxy.
    + apply Z.leb_le, cmp_le in Hxy. constructor; [now constructor|].
      constructor; [exact Hxy|].
      eapply Forall_impl; [|exact Hy]. intros z Hz. now apply (le_trans x y z).
    + apply Z.leb_gt in Hxy.
      assert (Hyx : le y x).
      { destruct (le_total x y) as [H|H]; [apply cmp_le in H; lia | exact H]. }
      constructor; [exact IH|].
      eapply Permutation_Forall; [symmetry; apply insert_perm|].
      now constructor.
Qed.

Lemma array_sort_sorted (arr : list A) : StronglySorted le (array_sort cmp arr).
Proof.
  induction arr as [|x rest IH]; simpl; [constructor | now apply insert_sorted].
Qed.

End SortFacts.

(** The lexicographic order of strings. *)

Lemma ascii_compare_lt_trans (x y z : ascii) :
  Ascii.compare x y = Lt -> Ascii.compare y z = Lt -> Ascii.compare x z = Lt.
Proof.
  unfold Ascii.compare. rewrite !N.compare_lt_iff. apply N.lt_trans.
Qed.

Lemma string_compare_lt_trans (a b c : string) :
  String.compare a b = Lt -> String.compare b c = Lt -> String.compare a c = Lt.
Proof.
  revert b c. induction a as [|x a IH]; intros [|y b] [|z c]; simpl; try easy.
  destruct (Ascii.compare x y) eqn:Hxy, (Ascii.compare y z) eqn:Hyz; try easy.
  - apply Ascii.compare_eq_iff in Hxy, Hyz. subst.
    assert (E : Ascii.compare z z = Eq)
      by (unfold Ascii.compare; apply N.compare_refl).
    rewrite E. apply IH.
  - apply Ascii.compare_eq_iff in Hxy. subst. now rewrite Hyz.
  - apply Ascii.compare_eq_iff in Hyz. subst. now rewrite Hxy.
  - now rewrite (ascii_compare_lt_trans x y z Hxy Hyz).
Qed.

Lemma string_compare_refl (s : string) : String.compare s s = Eq.
Proof.
  pose proof (String.compare_antisym s s) as H.
  destruct (String.compare s s); simpl in H; congruence.
Qed.

Lemma string_ltb_irrefl (s : string) : (s <? s)%string = false.
Proof. unfold String.ltb. now rewrite string_compare_refl. Qed.

Lemma string_leb_lt_or_eq (a b : string) :
  (a <=? b)%string = true <-> String.compare a b = Lt \/ a = b.
Proof.
  unfold String.leb. split.
  - destruct (String.compare a b) eqn:E; try easy; intros _.
    + right. now apply String.compare_eq_iff.
    + now left.
  - intros [-> | ->]; [reflexivity | now rewrite string_compare_refl].
Qed.

Lemma string_leb_trans (a b c : string) :
  (a <=? b)%string = true -> (b <=? c)%string = true -> (a <=? c)%string = true.
Proof.
  rewrite !string_leb_lt_or_eq.
  intros [H1 | ->] [H2 | ->]; auto.
  left. eapply string_compare_lt_trans; eassumption.
Qed.

(** [b < a] is false exactly when [a <= b]. *)
Lemma string_ltb_leb (a b : string) : (b <? a)%string = negb (a <=? b)%string.
Proof.
  unfold String.ltb, String.leb. rewrite (String.compare_antisym a b).
  destruct (String.compare b a); reflexivity.
Qed.

Lemma compare_fn_le (sortKey : ListView.SortKey) (sortDir : ListView.SortDir) (a b : Bean) :
  (ListView.compare_fn sortKey sortDir a b <= 0)%Z
  <-> in_order sortDir (sort_key sortKey a) (sort_key sortKey b).
Proof.
  unfold ListView.compare_fn, in_order. fold (sort_key sortKey a) (sort_key sortKey b).
  set (x := sort_key sortKey a). set (y := sort_key sortKey b).
  rewrite (string_ltb_leb x y), (string_ltb_leb y x).
  pose proof (String.leb_total x y) as Htotal.
  destruct (x <=? y)%string eqn:E1, (y <=? x)%string eqn:E2, sortDir; simpl;
    split; intros; solve [lia | reflexivity | discriminate | destruct Htotal; discriminate].
Qed.

Lemma in_order_total (sortDir : ListView.SortDir) (x y : string) :
  in_order sortDir x y \/ in_order sortDir y x.
Proof. destruct sortDir; simpl; [apply String.leb_total | apply String.leb_total]. Qed.

Lemma in_order_trans (sortDir : ListView.SortDir) (x y z : string) :
  in_order sortDir x y -> in_order sortDir y z -> in_order sortDir x z.
Proof.
  destruct sortDir; simpl; intros H1 H2.
  - exact (string_leb_trans x y z H1 H2).
  - exact (string_leb_trans z y x H2 H1).
Qed.

Lemma in_order_refl (sortDir : ListView.SortDir) (x : string) : in_order sortDir x x.
Proof.
  destruct sortDir; simpl; apply string_leb_lt_or_eq; now right.
Qed.

(** C6: the List page's [sorted] is a rearrangement of the filtered
    collection in which the case-folded keys (name or id) never decrease in
    the lexicographic order for [asc], never increase for [desc], and in
    which the beans of equal key keep the order they had; beans named
    Apple, cherry, Banana sorted by name, descending, come out as cherry,
    Banana, Apple. *)
Theorem sorted_contract (filtered : list Bean) (sortKey : ListView.SortKey)
    (sortDir : ListView.SortDir) :
  Permutation (ListView.sorted filtered sortKey sortDir) filtered
  /\ StronglySorted
       (fun a b => in_order sortDir (sort_key sortKey a) (sort_key sortKey b))
       (ListView.sorted filtered sortKey sortDir)
  /\ (forall k : string,
        List.filter (fun b => sort_key sortKey b =? k)
          (ListView.sorted filtered sortKey sortDir)
        = List.filter (fun b => sort_key sortKey b =? k) filtered)
  /\ List.map name
       (ListView.sorted
          [mkBean "1" "Apple" VUndefined VUndefined VUndefined VUndefined;
           mkBean "2" "cherry" VUndefined VUndefined VUndefined VUndefined;
           mkBean "3" "Banana" VUndefined VUndefined VUndefined VUndefined]
          ListView.ByName ListView.Desc)
     = ["cherry"; "Banana"; "Apple"].
Proof.
  unfold ListView.sorted. split; [apply array_sort_perm|]. split; [|split].
  - apply array_sort_sorted.
    + intros a b. apply compare_fn_le.
    + intros a b. apply in_order_total.
    + intros a b c. apply in_order_trans.
  - intros k. apply array_sort_filter. intros a b Ha Hb.
    apply String.eqb_eq in Ha, Hb. apply compare_fn_le.
    rewrite Ha, Hb. apply in_order_refl.
  - reflexivity.
Qed.

(** ** Search *)

Lemma prefix_spec (needle hay : string) :
  String.prefix needle hay = true <-> exists post, hay = (needle ++ post)%string.
Proof.
  revert hay. induction needle as [|c needle IH]; intros hay.
  - destruct hay; simpl; (split; [intros _; eauto | reflexivity]).
  - destruct hay as [|d hay]; simpl.
    + split; [discriminate | intros [post H]; discriminate H].
    + destruct (ascii_dec c d) as [->|Hne].
      * rewrite IH. split; intros [post H]; exists post; [now rewrite H | now injection H].
      * split; [discriminate | intros [post H]; injection H; congruence].
Qed.

Lemma includes_nil (needle : string) :
  Js.includes "" needle = (String.prefix needle "" || false)%bool.
Proof. reflexivity. Qed.

Lemma includes_cons (c : ascii) (hay needle : string) :
  Js.includes (String c hay) needle
  = (String.prefix needle (String c hay) || Js.includes hay needle)%bool.
Proof. reflexivity. Qed.

Lemma includes_spec (hay needle : string) :
  Js.includes hay needle = true
  <-> exists pre post, hay = (pre ++ needle ++ post)%string.
Proof.
  induction hay as [|c hay IH].
  - rewrite includes_nil, orb_false_r, prefix_spec. split.
    + intros [post H]. now exists ""%string, post.
    + intros (pre & post & H). destruct pre; [now exists post | discriminate H].
  - rewrite includes_cons, orb_true_iff, prefix_spec, IH. split.
    + intros [[post H] | (pre & post & H)].
      * now exists ""%string, post.
      * exists (String c pre), post. simpl. now rewrite H.
    + intros (pre & post & H). destruct pre as [|d pre].
      * left. now exists post.
      * right. injection H as _ H. now exists pre, post.
Qed.

Lemma toLowerCase_empty (s : string) : Js.toLowerCase s = "" <-> s = "".
Proof. destruct s; simpl; split; intros H; solve [reflexivity | discriminate H]. Qed.

Lemma array_filter_total {A : Type} (p : A -> result bool) (f : A -> bool) (arr : list A) :
  Forall (fun x => p x = Ok (f x)) arr -> array_filter p arr = Ok (List.filter f arr).
Proof.
  induction 1 as [|x rest Hx _ IH]; [reflexivity|].
  simpl. rewrite Hx, IH. simpl. reflexivity.
Qed.

Lemma keeps_matches (text : string) (b : Bean) :
  keeps (Js.toLowerCase text) b = true <-> matches text b.
Proof.
  unfold keeps, matches, ci_substring. rewrite !orb_true_iff, includes_spec.
  split.
  - intros [[H | H] | H]; [now left | right; left | right; right].
    + destruct (group b) as [| | | |g| |]; try discriminate H.
      exists g. split; [reflexivity | now apply includes_spec].
    + destruct (description b) as [| | | |d| |]; try discriminate H.
      exists d. split; [reflexivity | now apply includes_spec].
  - intros [H | [(g & -> & H) | (d & -> & H)]].
    + now left; left.
    + left; right. now apply includes_spec.
    + right. now apply includes_spec.
Qed.

Lemma filtered_blank (all : list Bean) (q : string) :
  Js.trim q = "" -> ListView.filtered all q = Ok all.
Proof. intros H. unfold ListView.filtered. now rewrite H. Qed.

Lemma filtered_typed (all : list Bean) (q : string) :
  Forall (fun b => optional_string (group b) /\ optional_string (description b)) all ->
  ListView.filtered all q
  = Ok (if Js.trim q =? "" then all
        else List.filter (keeps (Js.toLowerCase (Js.trim q))) all).
Proof.
  intros Htyped. unfold ListView.filtered.
  destruct (Js.trim q =? "") eqn:Hq.
  - apply String.eqb_eq in Hq. now rewrite Hq.
  - assert (Hn : Js.truthy_str (Js.toLowerCase (Js.trim q)) = true).
    { apply truthy_str_true. rewrite toLowerCase_empty. now apply String.eqb_neq. }
    rewrite Hn. simpl negb. cbv iota.
    apply array_filter_total.
    eapply Forall_impl; [|exact Htyped]. intros b [Hg Hd]. unfold keeps.
    destruct (Js.includes (Js.toLowerCase (name b)) _); [reflexivity|].
    destruct (group b) as [| | | |g| |]; simpl in Hg; try contradiction; simpl;
      try (destruct (Js.includes (Js.toLowerCase g) _); [reflexivity|]);
      destruct (description b); simpl in Hd; try contradiction; reflexivity.
Qed.

(** C7, as the specification states it, fails: the search text is trimmed
    first, so [" a"] keeps a bean named ["a"] although [" a"] occurs in none
    of its fields. *)
Lemma filtered_trims_search_text :
  let b := mkBean "1" "a" VUndefined VUndefined VUndefined VUndefined in
  ListView.filtered [b] " a" = Ok [b] /\ ~ matches " a" b.
Proof.
  split; [reflexivity|].
  intros [(pre & post & H) | [(g & H & _) | (d & H & _)]]; try discriminate H.
  destruct pre as [|c pre]; [discriminate H|].
  injection H as _ H. destruct pre; discriminate H.
Qed.

(** C7 (amended): on beans whose group and description are strings or
    absent, the List page keeps, in their order, exactly the beans in which
    the trimmed search text occurs, case ignored, in the name, the group or
    the description; when the search text is empty or only white space the
    filtered collection is the loaded collection, whatever the beans. *)
Theorem filtered_contract (all : list Bean) (q : string) :
  (Js.trim q = "" -> ListView.filtered all q = Ok all)
  /\ ListView.filtered all "" = Ok all
  /\ (Forall (fun b => optional_string (group b) /\ optional_string (description b)) all ->
      exists keep : Bean -> bool,
        ListView.filtered all q = Ok (List.filter keep all)
        /\ forall b, keep b = true <-> matches (Js.trim q) b).
Proof.
  split; [apply filtered_blank|]. split; [reflexivity|].
  intros Htyped. exists (keeps (Js.toLowerCase (Js.trim q))).
  split; [|intros b; apply keeps_matches].
  rewrite (filtered_typed all q Htyped).
  destruct (Js.trim q =? "") eqn:Hq; [|reflexivity].
  apply String.eqb_eq in Hq. rewrite Hq. f_equal.
  symmetry. apply forallb_filter_id. apply forallb_forall. intros b _.
  apply (keeps_matches "" b). left. exists ""%string, (Js.toLowerCase (name b)).
  reflexivity.
Qed.

Lemma filtered_contract_witness :
  let apple := mkBean "1" "Green Apple" VUndefined VUndefined (VStr "Fruit") VUndefined in
  let mint := mkBean "2" "Spearmint" (VStr "Cool") VUndefined VNull VUndefined in
  exists keep : Bean -> bool,
    ListView.filtered [apple; mint] " APP " = Ok (List.filter keep [apple; mint])
    /\ forall b, keep b = true <-> matches "APP" b.
Proof.
  intros apple mint.
  refine (proj2 (proj2 (filtered_contract [apple; mint] " APP ")) _).
  repeat constructor.
Defined.

(** ** Gallery page: buckets and the default selection *)

Module GalleryFacts.
Import GalleryView.

Lemma bucketOf_string (b : Bean) (g : string) :
  group b = VStr g ->
  bucketOf b = Ok (if Js.trim g =? "" then Js.toUpperCase (Js.charAt0 (name b)) else g).
Proof.
  intros Hg. unfold bucketOf. rewrite Hg. f_equal. unfold Js.truthy_str.
  destruct (Js.trim g =? "") eqn:Ht; simpl.
  - now rewrite andb_false_r.
  - apply String.eqb_neq in Ht. apply trim_nonempty in Ht.
    apply String.eqb_neq in Ht. now rewrite Ht.
Qed.

Lemma bucketOf_typed (b : Bean) :
  optional_string (group b) -> exists bucket, bucketOf b = Ok bucket.
Proof.
  unfold bucketOf. destruct (group b); simpl; intros H; try contradiction; eauto.
Qed.

Lemma set_add_In (x y : string) (s : list string) :
  In y (set_add x s) <-> y = x \/ In y s.
Proof.
  unfold set_add. destruct (List.existsb (String.eqb x) s) eqn:E.
  - split; [now right|]. intros [-> | H]; [|exact H].
    apply List.existsb_exists in E. destruct E as (z & Hz & Hxz).
    apply String.eqb_eq in Hxz. now subst.
  - rewrite List.in_app_iff. simpl. intuition congruence.
Qed.

Lemma set_add_NoDup (x : string) (s : list string) : NoDup s -> NoDup (set_add x s).
Proof.
  intros Hs. unfold set_add. destruct (List.existsb (String.eqb x) s) eqn:E; [exact Hs|].
  apply NoDup_app; [exact Hs | repeat constructor; intros [] | ].
  intros y Hy [Hxy | []]. subst y.
  assert (Hex : List.existsb (String.eqb x) s = true).
  { apply List.existsb_exists. exists x. split; [exact Hy | apply String.eqb_refl]. }
  congruence.
Qed.

Lemma add_buckets_spec (all : list Bean) (s out : list string) :
  add_buckets all s = Ok out ->
  NoDup s ->
  NoDup out
  /\ forall x, In x out <-> In x s \/ exists b, In b all /\ bucketOf b = Ok x.
Proof.
  revert s. induction all as [|b rest IH]; intros s; simpl.
  - intros [= <-] Hs. split; [exact Hs|]. intros x. split; [now left|].
    intros [H | (b & [] & _)]. exact H.
  - destruct (bucketOf b) as [bucket|e] eqn:Hb; simpl; [|discriminate].
    intros Hout Hs.
    destruct (IH _ Hout (set_add_NoDup bucket s Hs)) as [Hnd Hin].
    split; [exact Hnd|]. intros x. rewrite Hin, set_add_In. split.
    + intros [[-> | H] | (b' & Hb' & Hx)]; [right | now left | right].
      * exists b. split; [now left | exact Hb].
      * exists b'. split; [now right | exact Hx].
    + intros [H | (b' & [<- | Hb'] & Hx)]; [now left; right | left; left | right].
      * congruence.
      * now exists b'.
Qed.

Lemma add_buckets_typed (all : list Bean) (s : list string) :
  Forall (fun b => optional_string (group b)) all -> exists out, add_buckets all s = Ok out.
Proof.
  intros H. revert s. induction H as [|b rest Hb _ IH]; intros s; simpl; [eauto|].
  destruct (bucketOf_typed b Hb) as [bucket ->]. simpl. apply IH.
Qed.

Lemma default_compare_le (x y : string) :
  (default_compare x y <= 0)%Z <-> (x <=? y)%string = true.
Proof.
  unfold default_compare.
  rewrite (string_ltb_leb x y), (string_ltb_leb y x).
  pose proof (String.leb_total x y) as Htotal.
  destruct (x <=? y)%string eqn:E1, (y <=? x)%string eqn:E2; simpl;
    split; intros; solve [lia | reflexivity | discriminate | destruct Htotal; discriminate].
Qed.

Lemma strictly_sorted (l : list string) :
  StronglySorted (fun x y => (x <=? y)%string = true) l -> NoDup l ->
  StronglySorted (fun x y => String.compare x y = Lt) l.
Proof.
  induction 1 as [|x rest Hs IH Hx]; intros Hnd; constructor.
  - apply IH. now inversion Hnd.
  - inversion Hnd as [|? ? Hnotin _]; subst.
    apply Forall_forall. intros y Hy.
    rewrite Forall_forall in Hx. specialize (Hx y Hy).
    apply string_leb_lt_or_eq in Hx. destruct Hx as [H | ->]; [exact H | contradiction].
Qed.

Lemma allBuckets_spec (all : list Bean) (buckets : list string) :
  allBuckets all = Ok buckets ->
  StronglySorted (fun x y => String.compare x y = Lt) buckets
  /\ forall x, In x buckets <-> exists b, In b all /\ bucketOf b = Ok x.
Proof.
  unfold allBuckets. destruct (add_buckets all []) as [s|e] eqn:Hs; simpl; [|discriminate].
  intros [= <-].
  destruct (add_buckets_spec all [] s Hs (NoDup_nil _)) as [Hnd Hin].
  pose proof (array_sort_perm string default_compare s) as Hperm.
  split.
  - apply strictly_sorted.
    + apply array_sort_sorted.
      * apply default_compare_le.
      * apply String.leb_total.
      * apply string_leb_trans.
    + eapply Permutation_NoDup; [symmetry; exact Hperm | exact Hnd].
  - intros x. transitivity (In x s).
    + split; apply Permutation_in; [exact Hperm | symmetry; exact Hperm].
    + rewrite (Hin x). split; [intros [[] | H]; exact H | now right].
Qed.

Lemma allBuckets_typed (all : list Bean) :
  Forall (fun b => optional_string (group b)) all ->
  exists buckets, allBuckets all = Ok buckets.
Proof.
  intros H. unfold allBuckets.
  destruct (add_buckets_typed all [] H) as [s ->]. simpl. eauto.
Qed.

Lemma autoSelect_empty (buckets : list string) :
  autoSelect buckets [] = List.firstn (Nat.min 3 (List.length buckets)) buckets.
Proof. destruct buckets; reflexivity. Qed.

Lemma autoSelect_kept (buckets active : list string) :
  active <> [] -> autoSelect buckets active = active.
Proof. destruct active; [congruence | reflexivity]. Qed.

End GalleryFacts.

(** C8, as the specification states it, fails: a group that is not empty
    but blank is not the bucket; the first letter of the name is. *)
Lemma bucketOf_blank_group_falls_back :
  let b := with_group " " "apple" in
  group b = VStr " " /\ " " <> "" /\ GalleryView.bucketOf b = Ok "A"
  /\ GalleryView.bucketOf b <> Ok " ".
Proof. repeat split; discriminate. Qed.

(** C8 (amended): the bucket of a bean is its group when the group is a
    string that is not empty once trimmed of white space; when the group is
    empty, blank or absent it is the first character of the name,
    upper-cased. *)
Theorem bucketOf_contract (i n g : string) (d im c : value) :
  GalleryView.bucketOf (mkBean i n d im (VStr g) c)
  = Ok (if Js.trim g =? "" then Js.toUpperCase (Js.charAt0 n) else g)
  /\ GalleryView.bucketOf (mkBean i n d im VUndefined c) = Ok (Js.toUpperCase (Js.charAt0 n))
  /\ GalleryView.bucketOf (mkBean i n d im VNull c) = Ok (Js.toUpperCase (Js.charAt0 n)).
Proof.
  split; [|split; reflexivity].
  now apply GalleryFacts.bucketOf_string.
Qed.

(** C9: the buckets of the loaded records are listed once each in strictly
    increasing lexicographic order (and the list is there for every
    collection of beans whose group is a string or absent, not empty when
    the collection is not); with no bucket active the effect selects the
    first min(3, n) of them, Berry, Citrus, Mint for the groups Citrus,
    Mint, Berry, Tropical; with a bucket active it leaves the selection as
    it is, whatever the buckets have become. *)
Theorem autoSelect_contract (all : list Bean) (buckets active other : list string) :
  GalleryView.allBuckets all = Ok buckets ->
  StronglySorted (fun x y => String.compare x y = Lt) buckets
  /\ (forall x, In x buckets <-> exists b, In b all /\ GalleryView.bucketOf b = Ok x)
  /\ (all <> [] -> buckets <> [])
  /\ GalleryView.autoSelect buckets []
     = List.firstn (Nat.min 3 (List.length buckets)) buckets
  /\ (active <> [] -> GalleryView.autoSelect other active = active)
  /\ (forall beans,
        Forall (fun b => optional_string (group b)) beans ->
        exists l, GalleryView.allBuckets beans = Ok l)
  /\ (let four := [with_group "Citrus" "Lemon"; with_group "Mint" "Spearmint";
                   with_group "Berry" "Blueberry"; with_group "Tropical" "Mango"] in
      GalleryView.allBuckets four = Ok ["Berry"; "Citrus"; "Mint"; "Tropical"]
      /\ GalleryView.autoSelect ["Berry"; "Citrus"; "Mint"; "Tropical"] []
         = ["Berry"; "Citrus"; "Mint"]).
Proof.
  intros Hb. destruct (GalleryFacts.allBuckets_spec all buckets Hb) as [Hsorted Hin].
  split; [exact Hsorted|]. split; [exact Hin|]. split.
  { intros Hall ->. destruct all as [|b rest]; [congruence|].
    assert (Hsome : exists x, GalleryView.bucketOf b = Ok x).
    { unfold GalleryView.allBuckets in Hb. simpl in Hb.
      destruct (GalleryView.bucketOf b); [eauto | discriminate Hb]. }
    destruct Hsome as [x Hx]. apply (proj2 (Hin x)). exists b. split; [now left | exact Hx]. }
  split; [apply GalleryFacts.autoSelect_empty|].
  split; [apply GalleryFacts.autoSelect_kept|].
  split; [apply GalleryFacts.allBuckets_typed|].
  split; reflexivity.
Qed.

Lemma autoSelect_contract_witness :
  let all := [with_group "Sour" "Lime"; with_group "" "apple"; with_group "Sour" "Lemon"] in
  StronglySorted (fun x y => String.compare x y = Lt) ["A"; "Sour"]
  /\ GalleryView.autoSelect ["A"; "Sour"] [] = ["A"; "Sour"].
Proof.
  intros all.
  destruct (autoSelect_contract all ["A"; "Sour"] ["A"] [] eq_refl)
    as (Hsorted & _ & _ & Hsel & _).
  split; [exact Hsorted | exact Hsel].
Defined.

(* ================================================================== *)
(** * Further properties of the code                                   *)
(* ================================================================== *)

(** ** Slugs and synthetic identifiers *)

Lemma append_empty_r (s : string) : (s ++ "")%string = s.
Proof. induction s as [|c s IH]; simpl; [reflexivity | now rewrite IH]. Qed.

Lemma append_assoc (a b c : string) : ((a ++ b) ++ c)%string = (a ++ b ++ c)%string.
Proof. induction a as [|x a IH]; simpl; [reflexivity | now rewrite IH]. Qed.

Lemma all_chars_app (p : ascii -> bool) (a b : string) :
  all_chars p (a ++ b) = (all_chars p a && all_chars p b)%bool.
Proof.
  induction a as [|c a IH]; simpl; [reflexivity|]. now rewrite IH, andb_assoc.
Qed.

Lemma all_chars_impl (p q : ascii -> bool) (s : string) :
  (forall c, p c = true -> q c = true) -> all_chars p s = true -> all_chars q s = true.
Proof.
  intros Hpq. induction s as [|c s IH]; simpl; [reflexivity|].
  rewrite !andb_true_iff. intros [Hc Hs]. auto.
Qed.

Lemma pieces_slug_chars (s : string) :
  Forall (fun w => all_chars slug_char w = true) (pieces s).
Proof.
  induction s as [|c r IH]; simpl; [repeat constructor|].
  destruct (slug_char c) eqn:Hc; [|now constructor].
  destruct (pieces r) as [|w ws]; [repeat constructor; simpl; now rewrite Hc|].
  inversion IH; subst. constructor; [simpl; now rewrite Hc|assumption].
Qed.

Lemma words_are_words (s : string) : Forall is_word (words s).
Proof.
  unfold words. apply Forall_forall. intros w Hw. apply filter_In in Hw.
  destruct Hw as [Hin Hne]. split; [now apply truthy_str_true|].
  pose proof (pieces_slug_chars s) as H. rewrite Forall_forall in H. now apply H.
Qed.

Lemma word_head (w : string) :
  is_word w -> exists c r, w = String c r /\ slug_char c = true.
Proof.
  intros [Hne Hall]. destruct w as [|c r]; [congruence|].
  simpl in Hall. apply andb_true_iff in Hall. exists c, r. tauto.
Qed.

Lemma concat_cons2 (w v : string) (ws : list string) :
  String.concat "-" (w :: v :: ws) = (w ++ "-" ++ String.concat "-" (v :: ws))%string.
Proof. reflexivity. Qed.

Lemma concat_words_head (ws : list string) :
  Forall is_word ws -> starts_with_hyphen (String.concat "-" ws) = false.
Proof.
  intros H. destruct H as [|w ws Hw _]; [reflexivity|].
  destruct (word_head w Hw) as (c & r & -> & Hc).
  destruct ws; simpl; now apply slug_char_hyphen.
Qed.

Lemma ends_with_hyphen_app (a b : string) :
  b <> "" -> ends_with_hyphen (a ++ b) = ends_with_hyphen b.
Proof.
  intros Hb. induction a as [|c a IH]; [reflexivity|].
  simpl. destruct (a ++ b)%string eqn:E; [|exact IH].
  destruct a; simpl in E; [congruence | discriminate].
Qed.

Lemma ends_with_hyphen_word (w : string) : is_word w -> ends_with_hyphen w = false.
Proof.
  intros [_ Hall]. induction w as [|c w IH]; [reflexivity|].
  simpl in Hall. apply andb_true_iff in Hall. destruct Hall as [Hc Hw].
  simpl. destruct w; [now apply slug_char_hyphen | now apply IH].
Qed.

Lemma concat_words_last (ws : list string) :
  Forall is_word ws -> ends_with_hyphen (String.concat "-" ws) = false.
Proof.
  induction 1 as [|w ws Hw Hws IH]; [reflexivity|].
  destruct ws as [|v ws]; [now apply ends_with_hyphen_word|].
  rewrite concat_cons2, ends_with_hyphen_app; [|discriminate].
  rewrite (ends_with_hyphen_app "-"); [exact IH|].
  inversion Hws as [|? ? Hv _]; subst. destruct (word_head v Hv) as (c & r & -> & _).
  destruct ws; discriminate.
Qed.

Lemma single_hyphens_word_app (w t : string) :
  all_chars slug_char w = true -> single_hyphens t = true -> single_hyphens (w ++ t) = true.
Proof.
  intros Hall Ht. induction w as [|c w IH]; [exact Ht|].
  simpl in Hall. apply andb_true_iff in Hall. destruct Hall as [Hc Hw].
  simpl. rewrite (slug_char_hyphen c Hc). simpl. now apply IH.
Qed.

Lemma concat_words_single (ws : list string) :
  Forall is_word ws -> single_hyphens (String.concat "-" ws) = true.
Proof.
  induction 1 as [|w ws Hw Hws IH]; [reflexivity|].
  destruct ws as [|v ws].
  - simpl. rewrite <- (append_empty_r w). apply single_hyphens_word_app; [apply Hw | reflexivity].
  - rewrite concat_cons2. apply single_hyphens_word_app; [apply Hw|].
    change ("-" ++ String.concat "-" (v :: ws))%string
      with (String hyphen (String.concat "-" (v :: ws))).
    cbn [single_hyphens]. rewrite IH, andb_true_r.
    rewrite (concat_words_head (v :: ws) Hws). now rewrite andb_false_r.
Qed.

Lemma concat_words_chars (ws : list string) :
  Forall is_word ws ->
  all_chars (fun c => slug_char c || Ascii.eqb c hyphen)%bool (String.concat "-" ws) = true.
Proof.
  assert (Hword : forall w, is_word w ->
            all_chars (fun c => slug_char c || Ascii.eqb c hyphen)%bool w = true).
  { intros w [_ Hw]. eapply all_chars_impl; [|exact Hw].
    intros c Hc. now rewrite Hc. }
  induction 1 as [|w ws Hw Hws IH]; [reflexivity|].
  destruct ws as [|v ws]; [now apply Hword|].
  rewrite concat_cons2, !all_chars_app, (Hword w Hw), IH. reflexivity.
Qed.

(** X1: a slug is made of the characters [[a-z0-9]] and hyphens only, it
    neither starts nor ends with a hyphen, and no two hyphens follow each
    other in it. *)
Theorem slugify_shape (n : string) :
  all_chars (fun c => slug_char c || Ascii.eqb c hyphen)%bool (slugify n) = true
  /\ starts_with_hyphen (slugify n) = false
  /\ ends_with_hyphen (slugify n) = false
  /\ single_hyphens (slugify n) = true.
Proof.
  rewrite slugify_words.
  pose proof (words_are_words (Js.toLowerCase n)) as Hw.
  repeat split.
  - now apply concat_words_chars.
  - now apply concat_words_head.
  - now apply concat_words_last.
  - now apply concat_words_single.
Qed.

Lemma lower_char_fixed (c : ascii) :
  (slug_char c || Ascii.eqb c hyphen)%bool = true -> Js.lower_char c = c.
Proof.
  destruct c as [[] [] [] [] [] [] [] []]; intros H; solve [reflexivity | discriminate H].
Qed.

Lemma toLowerCase_fixed (s : string) :
  all_chars (fun c => slug_char c || Ascii.eqb c hyphen)%bool s = true ->
  Js.toLowerCase s = s.
Proof.
  induction s as [|c s IH]; simpl; [reflexivity|].
  rewrite andb_true_iff. intros [Hc Hs].
  unfold Js.toLowerCase in *. simpl. now rewrite (lower_char_fixed c Hc), IH.
Qed.

Lemma pieces_word_app (w s : string) :
  all_chars slug_char w = true ->
  pieces (w ++ s) =
    match pieces s with
    | p :: ps => (w ++ p)%string :: ps
    | [] => [w]
    end.
Proof.
  intros Hall. induction w as [|c w IH]; simpl.
  - destruct (pieces s) eqn:E; [now apply pieces_nonempty in E | reflexivity].
  - simpl in Hall. apply andb_true_iff in Hall. destruct Hall as [Hc Hw].
    rewrite Hc, (IH Hw). destruct (pieces s); reflexivity.
Qed.

Lemma pieces_word (w : string) : all_chars slug_char w = true -> pieces w = [w].
Proof.
  induction w as [|c w IH]; simpl; [reflexivity|].
  rewrite andb_true_iff. intros [Hc Hw]. now rewrite Hc, (IH Hw).
Qed.

Lemma words_concat (ws : list string) :
  Forall is_word ws -> words (String.concat "-" ws) = ws.
Proof.
  induction 1 as [|w ws Hw Hws IH]; [reflexivity|].
  destruct Hw as [Hne Hall].
  assert (Ht : Js.truthy_str w = true) by now apply truthy_str_true.
  destruct ws as [|v ws].
  - unfold words. simpl String.concat. rewrite (pieces_word w Hall).
    simpl. now rewrite Ht.
  - rewrite concat_cons2. unfold words in *.
    rewrite (pieces_word_app w _ Hall).
    change (pieces ("-" ++ String.concat "-" (v :: ws)))
      with (EmptyString :: pieces (String.concat "-" (v :: ws))).
    cbv beta iota. rewrite append_empty_r. cbn [List.filter]. rewrite Ht.
    change (Js.truthy_str "") with false. cbv iota. now rewrite IH.
Qed.

(** X2: [slugify] is idempotent: the slug of a slug is that slug. *)
Theorem slugify_idempotent (n : string) : slugify (slugify n) = slugify n.
Proof.
  pose proof (words_are_words (Js.toLowerCase n)) as Hw.
  rewrite (slugify_words (slugify n)), (slugify_words n) at 1.
  rewrite toLowerCase_fixed by (now apply concat_words_chars).
  rewrite (words_concat _ Hw). now rewrite slugify_words.
Qed.

(** Decimal numerals. *)

Lemma string_of_uint_digits (d : Decimal.uint) :
  all_chars (fun c => negb (Ascii.eqb c hyphen)) (NilEmpty.string_of_uint d) = true.
Proof. induction d; simpl; auto. Qed.

Lemma show_index_injective (i j : nat) : Js.show_index i = Js.show_index j -> i = j.
Proof.
  unfold Js.show_index. intros H.
  apply DecimalNat.Unsigned.to_uint_inj.
  pose proof (NilEmpty.usu (Nat.to_uint i)) as Hi.
  pose proof (NilEmpty.usu (Nat.to_uint j)) as Hj.
  rewrite H in Hi. congruence.
Qed.

Lemma after_last_hyphen_app (a d : string) :
  all_chars (fun c => negb (Ascii.eqb c hyphen)) d = true ->
  after_last_hyphen (a ++ "-" ++ d) = d.
Proof.
  intros Hd. induction a as [|c a IH].
  - simpl. now rewrite Hd.
  - simpl. rewrite all_chars_app. simpl. rewrite andb_false_r. exact IH.
Qed.

(** X3: two beans without a usable id never get the same identifier at
    different positions: the synthetic identifier ends with the position. *)
Theorem synthetic_ids_differ (b1 b2 : Bean) (i j : nat) :
  Js.trim (id b1) = "" -> Js.trim (id b2) = "" -> i <> j ->
  stableId b1 i <> stableId b2 j.
Proof.
  intros H1 H2 Hij. rewrite !stableId_cases, H1, H2.
  change ("" =? "") with true. cbv iota. intros H.
  rewrite <- (append_assoc "name-" (slugify (name b1))) in H.
  rewrite <- (append_assoc "name-" (slugify (name b2))) in H.
  apply (f_equal after_last_hyphen) in H.
  unfold Js.show_index in H.
  rewrite !after_last_hyphen_app in H by apply string_of_uint_digits.
  apply Hij. now apply show_index_injective.
Qed.

Lemma synthetic_ids_differ_witness :
  stableId (mkBean "" "Lime 1" VUndefined VUndefined VUndefined VUndefined) 1
  <> stableId (mkBean "  " "Lime" VUndefined VUndefined VUndefined VUndefined) 11.
Proof.
  apply synthetic_ids_differ; [reflexivity | reflexivity | lia].
Defined.

(** ** Identifiers of a list and the way into the detail page *)

Lemma map_from_nth {A B : Type} (f : A -> nat -> B) (k i : nat) (arr : list A) :
  List.nth_error (map_from f k arr) i
  = option_map (fun x => f x (k + i)) (List.nth_error arr i).
Proof.
  revert k i. induction arr as [|x rest IH]; intros k [|i]; simpl; try reflexivity.
  - now rewrite Nat.add_0_r.
  - rewrite IH. now replace (S k + i) with (k + S i) by lia.
Qed.

Lemma map_from_own_id (k : nat) (l : list Bean) :
  Forall has_own_id l -> map_from stableId k l = List.map id l.
Proof.
  intros H. revert k. induction H as [|b rest Hb _ IH]; intros k; simpl; [reflexivity|].
  rewrite IH, stableId_cases. apply String.eqb_neq in Hb. now rewrite Hb.
Qed.

(** X4: the identifier of a bean whose id is not blank is that id at every
    position, so the identifiers of a list of such beans are their ids and
    sorting the list only rearranges its identifiers. *)
Theorem own_ids_stable (l : list Bean) (sortKey : ListView.SortKey)
    (sortDir : ListView.SortDir) :
  Forall has_own_id l ->
  (forall b i j, In b l -> stableId b i = stableId b j)
  /\ ListView.ids l = List.map id l
  /\ ListView.ids (ListView.sorted l sortKey sortDir)
     = List.map id (ListView.sorted l sortKey sortDir)
  /\ Permutation (ListView.ids (ListView.sorted l sortKey sortDir)) (ListView.ids l).
Proof.
  intros Hown.
  assert (Hsorted : Forall has_own_id (ListView.sorted l sortKey sortDir)).
  { eapply Permutation_Forall; [|exact Hown]. symmetry.
    apply array_sort_perm. }
  split; [|split; [|split]].
  - intros b i j Hb. rewrite Forall_forall in Hown. specialize (Hown b Hb).
    rewrite !stableId_cases. apply String.eqb_neq in Hown. now rewrite Hown.
  - apply map_from_own_id, Hown.
  - apply map_from_own_id, Hsorted.
  - unfold ListView.ids, map_index. rewrite !map_from_own_id by assumption.
    apply Permutation_map, array_sort_perm.
Qed.

Lemma own_ids_stable_witness :
  let l := [with_group "Sour" "pear"; with_group "Sour" "Apple"] in
  ListView.ids (ListView.sorted l ListView.ByName ListView.Asc)
  = List.map id (ListView.sorted l ListView.ByName ListView.Asc).
Proof.
  intros l.
  refine (proj1 (proj2 (proj2 (own_ids_stable l ListView.ByName ListView.Asc _)))).
  repeat constructor; discriminate.
Defined.

(** The first place of [x] in [arr]: where [indexOf] points. *)
Lemma indexOf_from_first (arr : list string) (x : string) (k : Z) (i : nat) :
  List.nth_error arr i = Some x ->
  exists p : nat,
    indexOf_from k arr x = (k + Z.of_nat p)%Z
    /\ (p <= i)%nat
    /\ List.nth_error arr p = Some x
    /\ (NoDup arr -> p = i).
Proof.
  revert k i. induction arr as [|y rest IH]; intros k i Hi; [destruct i; discriminate|].
  simpl. destruct (y =? x) eqn:E.
  - apply String.eqb_eq in E. subst y. exists 0%nat.
    split; [lia|]. split; [lia|]. split; [reflexivity|].
    intros Hnd. destruct i as [|i]; [reflexivity|]. simpl in Hi.
    inversion Hnd; subst. exfalso. eauto using List.nth_error_In.
  - destruct i as [|i]; simpl in Hi.
    + injection Hi as ->. rewrite String.eqb_refl in E. discriminate.
    + destruct (IH (k + 1)%Z i Hi) as (p & Hp & Hle & Hn & Hnd).
      exists (S p). split; [lia|]. split; [lia|]. split; [exact Hn|].
      intros H. inversion H; subst. now rewrite Hnd.
Qed.

(** A page handed a collection settles on the first position whose
    identifier is the route id, whatever state it comes from. *)
Lemma commit_carried (id : string) (passed : NavState) (c_runs : bool)
    (seen : DetailView.State) (list : list Bean) (i : nat) :
  nav_beans passed = Some list ->
  (0 <= DetailView.idx seen)%Z ->
  List.nth_error (map_index stableId list) i = Some id ->
  let p := Z.to_nat (indexOf (map_index stableId list) id) in
  (p <= i)%nat
  /\ List.nth_error (map_index stableId list) p = Some id
  /\ (NoDup (map_index stableId list) -> p = i)
  /\ DetailView.commit id passed c_runs seen = (showing list p, []).
Proof.
  intros Hbeans Hidx Hi p.
  destruct (indexOf_from_first _ id 0%Z i Hi) as (p' & Hp & Hle & Hn & Hnd).
  fold (indexOf (map_index stableId list) id) in Hp.
  assert (Hpp : p = p') by (subst p; rewrite Hp; lia).
  rewrite Hpp. clear p Hpp.
  split; [exact Hle|]. split; [exact Hn|]. split; [exact Hnd|].
  assert (Hlen : list <> []).
  { intros ->. destruct i; discriminate Hi. }
  assert (Hguard : DetailView.has_beans passed = true).
  { unfold DetailView.has_beans. rewrite Hbeans. destruct list; [congruence | reflexivity]. }
  assert (HA : DetailView.effectA id passed seen = showing list p').
  { unfold DetailView.effectA. rewrite Hbeans.
    destruct list as [|b rest]; [congruence|]. cbn [List.length Nat.eqb negb].
    rewrite Hp. rewrite Z.add_0_l.
    assert (Hge : (Z.of_nat p' >=? 0)%Z = true) by (apply Z.geb_le; lia).
    rewrite Hge. unfold at_index.
    assert (Hlt : (Z.of_nat p' <? 0)%Z = false) by (apply Z.ltb_ge; lia).
    rewrite Hlt, Nat2Z.id. reflexivity. }
  unfold DetailView.commit. rewrite HA.
  unfold DetailView.effectB, DetailView.effectC. rewrite Hguard.
  destruct c_runs; now rewrite (effectD_idle id seen _ Hidx).
Qed.

(** X5: a row of the List page (a card of the Gallery page) opens the
    detail page, without any request, on the first bean of the carried
    list whose identifier is the one in the link: no earlier position of
    the list has that identifier.  When the identifiers of the list are
    pairwise different that is the bean of the row itself, at the index of
    the row. *)
Theorem link_round_trip (list : list Bean) (b : Bean) (i : nat) :
  List.nth_error list i = Some b ->
  (exists p : nat,
      List.nth_error (map_index stableId list) p = Some (stableId b i)
      /\ (forall q, List.nth_error (map_index stableId list) q = Some (stableId b i) ->
                    (p <= q)%nat)
      /\ DetailView.mount (stableId b i) (state (ListView.link list b i))
         = (showing list p, [])
      /\ DetailView.mount (stableId b i) (state (GalleryView.link list b i))
         = (showing list p, []))
  /\ (NoDup (map_index stableId list) ->
      DetailView.mount (stableId b i) (state (ListView.link list b i))
      = (DetailView.mkState (Some b) false None (map_index stableId list) (Z.of_nat i), [])
      /\ DetailView.mount (stableId b i) (state (GalleryView.link list b i))
         = (DetailView.mkState (Some b) false None (map_index stableId list) (Z.of_nat i),
            [])).
Proof.
  intros Hi.
  assert (Hid : List.nth_error (map_index stableId list) i = Some (stableId b i)).
  { unfold map_index. now rewrite map_from_nth, Hi. }
  assert (HL : forall from,
             let p := Z.to_nat (indexOf (map_index stableId list) (stableId b i)) in
             (p <= i)%nat
             /\ List.nth_error (map_index stableId list) p = Some (stableId b i)
             /\ (NoDup (map_index stableId list) -> p = i)
             /\ DetailView.mount (stableId b i)
                  (mkNav (Some (map_index stableId list)) (Some (Z.of_nat i)) from
                     (Some list))
                = (showing list p, [])).
  { intros from. apply commit_carried; [reflexivity | simpl; lia | exact Hid]. }
  destruct (HL (Some FromList)) as (Hle & Hn & Hnd & Hm).
  destruct (HL (Some FromGallery)) as (_ & _ & _ & Hm').
  change (state (ListView.link list b i))
    with (mkNav (Some (map_index stableId list)) (Some (Z.of_nat i)) (Some FromList)
            (Some list)).
  change (state (GalleryView.link list b i))
    with (mkNav (Some (map_index stableId list)) (Some (Z.of_nat i)) (Some FromGallery)
            (Some list)).
  split.
  - eexists. split; [exact Hn|]. split; [|split; [exact Hm | exact Hm']].
    intros q Hq.
    destruct (indexOf_from_first _ (stableId b i) 0%Z q Hq) as (p' & Hp' & Hle' & _).
    fold (indexOf (map_index stableId list) (stableId b i)) in Hp'. lia.
  - intros Hn0. rewrite Hm, Hm', (Hnd Hn0). unfold showing. rewrite Hi. auto.
Qed.

Lemma link_round_trip_witness :
  let list := [with_group "Mint" "a"; with_group "Mint" "b"; with_group "Mint" "c"] in
  DetailView.mount "b" (state (ListView.link list (with_group "Mint" "b") 1))
  = (DetailView.mkState (Some (with_group "Mint" "b")) false None ["a"; "b"; "c"] 1, []).
Proof.
  intros list.
  refine (proj1 (proj2 (link_round_trip list (with_group "Mint" "b") 1 eq_refl) _)).
  repeat constructor; simpl; intuition discriminate.
Defined.

(** ** Previous and Next along a carried collection, and on a deep link *)

Lemma showing_canNext (list : list Bean) (i : nat) :
  S i < List.length list -> DetailView.canNext (showing list i) = true.
Proof.
  intros H. apply NavFacts.canNext_spec. simpl.
  unfold map_index. rewrite NavFacts.map_from_length. lia.
Qed.

Lemma showing_canPrev (list : list Bean) (i : nat) :
  DetailView.canPrev (showing list (S i)) = true.
Proof. apply NavFacts.canPrev_spec. simpl. lia. Qed.

Lemma ids_nth_some (list : list Bean) (i : nat) :
  i < List.length list -> exists target, List.nth_error (map_index stableId list) i = Some target.
Proof.
  intros H. destruct (List.nth_error (map_index stableId list) i) eqn:E; [eauto|].
  apply List.nth_error_None in E. unfold map_index in E.
  rewrite NavFacts.map_from_length in E. lia.
Qed.

Lemma at_index_nat {A : Type} (arr : list A) (i : nat) :
  at_index arr (Z.of_nat i) = List.nth_error arr i.
Proof.
  unfold at_index.
  assert (H : (Z.of_nat i <? 0)%Z = false) by (apply Z.ltb_ge; lia).
  now rewrite H, Nat2Z.id.
Qed.

(** X6: on a page that shows position [i] of a carried collection whose
    identifiers are pairwise different, Next leads, without any request, to
    position [i+1] of the same collection, and Previous from there leads
    back to the state the page was in. *)
Theorem next_prev_round_trip (list : list Bean) (passed : NavState) (i : nat)
    (c_runs : bool) :
  nav_beans passed = Some list ->
  NoDup (map_index stableId list) ->
  S i < List.length list ->
  exists (forth back : string) (next prev : Navigation),
    List.nth_error (map_index stableId list) (S i) = Some forth
    /\ DetailView.goNext passed (showing list i) = Some next
    /\ to next = ("/detail/" ++ forth)%string
    /\ nav_beans (state next) = Some list
    /\ DetailView.commit forth (state next) c_runs (showing list i)
       = (showing list (S i), [])
    /\ List.nth_error (map_index stableId list) i = Some back
    /\ DetailView.goPrev (state next) (showing list (S i)) = Some prev
    /\ to prev = ("/detail/" ++ back)%string
    /\ nav_beans (state prev) = Some list
    /\ DetailView.commit back (state prev) c_runs (showing list (S i))
       = (showing list i, []).
Proof.
  intros Hbeans Hnd Hlen.
  destruct (ids_nth_some list (S i) Hlen) as [forth Hforth].
  destruct (ids_nth_some list i) as [back Hback]; [lia|].
  pose (next := mkNavigation ("/detail/" ++ forth)
                  (mkNav (Some (map_index stableId list)) (Some (Z.of_nat i + 1)%Z)
                     (nav_from passed) (Some list))).
  pose (prev := mkNavigation ("/detail/" ++ back)
                  (mkNav (Some (map_index stableId list)) (Some (Z.of_nat (S i) - 1)%Z)
                     (nav_from passed) (Some list))).
  exists forth, back, next, prev.
  assert (Hnext : DetailView.goNext passed (showing list i) = Some next).
  { rewrite (NavFacts.goNext_enabled passed _ (showing_canNext list i Hlen)).
    subst next. unfold showing. cbn [DetailView.ids DetailView.idx].
    replace (Z.of_nat i + 1)%Z with (Z.of_nat (S i)) by lia.
    now rewrite at_index_nat, Hforth, Hbeans. }
  assert (Hprev : DetailView.goPrev (state next) (showing list (S i)) = Some prev).
  { rewrite (NavFacts.goPrev_enabled _ _ (showing_canPrev list i)).
    subst prev next. unfold showing.
    cbn [DetailView.ids DetailView.idx state nav_from nav_beans].
    replace (Z.of_nat (S i) - 1)%Z with (Z.of_nat i) by lia.
    now rewrite at_index_nat, Hback. }
  split; [exact Hforth|]. split; [exact Hnext|]. split; [reflexivity|].
  split; [reflexivity|]. split.
  { destruct (commit_carried forth (state next) c_runs (showing list i) list (S i))
      as (_ & _ & Hp & Hc); [reflexivity | simpl; lia | exact Hforth |].
    now rewrite Hc, (Hp Hnd). }
  split; [exact Hback|]. split; [exact Hprev|]. split; [reflexivity|].
  split; [reflexivity|].
  destruct (commit_carried back (state prev) c_runs (showing list (S i)) list i)
    as (_ & _ & Hp & Hc); [reflexivity | simpl; lia | exact Hback |].
  now rewrite Hc, (Hp Hnd).
Qed.

Lemma next_prev_round_trip_witness :
  let list := [with_group "Mint" "a"; with_group "Mint" "b"; with_group "Mint" "c"] in
  let passed := mkNav (Some ["a"; "b"; "c"]) (Some 0%Z) (Some FromGallery) (Some list) in
  exists (forth back : string) (next prev : Navigation),
    List.nth_error (map_index stableId list) 1 = Some forth
    /\ DetailView.goNext passed (showing list 0) = Some next
    /\ to next = ("/detail/" ++ forth)%string
    /\ nav_beans (state next) = Some list
    /\ DetailView.commit forth (state next) false (showing list 0) = (showing list 1, [])
    /\ List.nth_error (map_index stableId list) 0 = Some back
    /\ DetailView.goPrev (state next) (showing list 1) = Some prev
    /\ to prev = ("/detail/" ++ back)%string
    /\ nav_beans (state prev) = Some list
    /\ DetailView.commit back (state prev) false (showing list 1) = (showing list 0, []).
Proof.
  intros list passed.
  apply (next_prev_round_trip list passed 0 false); [reflexivity | | simpl; lia].
  repeat constructor; simpl; intuition discriminate.
Defined.

(** Without a carried collection the effects leave [ids] and [idx] alone
    once an index is there. *)
Lemma commit_deep_link (id : string) (passed : NavState) (c_runs : bool)
    (seen : DetailView.State) :
  nav_beans passed = None ->
  (0 <= DetailView.idx seen)%Z ->
  DetailView.ids seen <> [] ->
  DetailView.commit id passed c_runs seen
  = (DetailView.setError None (DetailView.setLoading true seen),
     [DetailView.FetchBeanById id]).
Proof.
  intros Hbeans Hidx Hids.
  unfold DetailView.commit, DetailView.effectA, DetailView.effectB, DetailView.effectC,
    DetailView.has_beans.
  rewrite Hbeans.
  destruct (DetailView.ids seen) as [|x rest] eqn:E; [congruence|].
  cbn [List.length Nat.eqb negb].
  destruct c_runs; now rewrite (effectD_idle id seen _ Hidx).
Qed.

(** X8: on the deep-link path (no collection carried) a navigation by
    Previous or Next fetches the record of the new route id but leaves the
    identifier list and the index of the page as they were: the index sent
    with the navigation is not read, and pressing the same button again
    issues the same navigation. *)
Theorem deep_link_index_is_kept (passed : NavState) (st : DetailView.State)
    (nav : Navigation) (id : string) (c_runs : bool) (outcome : result (option Bean)) :
  nav_beans passed = None ->
  DetailView.ids st <> [] ->
  DetailView.goNext passed st = Some nav \/ DetailView.goPrev passed st = Some nav ->
  let st' :=
    DetailView.effectB_settled true outcome
      (fst (DetailView.commit id (state nav) c_runs st)) in
  snd (DetailView.commit id (state nav) c_runs st) = [DetailView.FetchBeanById id]
  /\ DetailView.ids st' = DetailView.ids st
  /\ DetailView.idx st' = DetailView.idx st
  /\ (DetailView.goNext passed st = Some nav -> DetailView.goNext (state nav) st' = Some nav)
  /\ (DetailView.goPrev passed st = Some nav -> DetailView.goPrev (state nav) st' = Some nav).
Proof.
  intros Hbeans Hids Hnav st'.
  assert (Hidx : (0 <= DetailView.idx st)%Z).
  { destruct Hnav as [H | H]; [eapply entry_index, entry_by_next |
                               eapply entry_index, entry_by_prev]; exact H. }
  assert (Hcarried : nav_beans (state nav) = None /\ nav_from (state nav) = nav_from passed).
  { destruct Hnav as [H | H];
      [unfold DetailView.goNext in H; destruct (DetailView.canNext st)
      |unfold DetailView.goPrev in H; destruct (DetailView.canPrev st)];
      simpl in H; try discriminate H; injection H as <-; simpl; auto. }
  destruct Hcarried as [Hnb Hfrom].
  subst st'. rewrite (commit_deep_link id (state nav) c_runs st Hnb Hidx Hids).
  cbn [fst snd].
  assert (Hsame : DetailView.ids
                    (DetailView.effectB_settled true outcome
                       (DetailView.setError None (DetailView.setLoading true st)))
                  = DetailView.ids st
                  /\ DetailView.idx
                       (DetailView.effectB_settled true outcome
                          (DetailView.setError None (DetailView.setLoading true st)))
                     = DetailView.idx st).
  { destruct outcome as [[b|]|e]; simpl; auto. }
  destruct Hsame as [Hi Hx].
  split; [reflexivity|]. split; [exact Hi|]. split; [exact Hx|].
  split; intros H.
  - unfold DetailView.goNext, DetailView.canNext in *. rewrite Hi, Hx, Hnb, Hfrom.
    now rewrite Hbeans in H.
  - unfold DetailView.goPrev, DetailView.canPrev in *. rewrite Hi, Hx, Hnb, Hfrom.
    now rewrite Hbeans in H.
Qed.

Lemma deep_link_index_is_kept_witness :
  let passed := mkNav None None None None in
  let st := DetailView.mkState None false None ["5"; "7"; "9"] 0 in
  let nav := mkNavigation "/detail/7" (mkNav (Some ["5"; "7"; "9"]) (Some 1%Z) None None) in
  DetailView.idx
    (DetailView.effectB_settled true (Ok None)
       (fst (DetailView.commit "7" (state nav) false st))) = 0%Z.
Proof.
  intros passed st nav.
  refine (proj1 (proj2 (proj2
            (deep_link_index_is_kept passed st nav "7" false (Ok None) eq_refl _ _)))).
  - discriminate.
  - left. reflexivity.
Defined.

(** ** The lookups of the detail page *)

Lemma map_r_ok {A : Type} (items : list A) : map_r (fun x => Ok x) items = Ok items.
Proof. induction items as [|x rest IH]; simpl; [reflexivity | now rewrite IH]. Qed.

Lemma items_of_ok (items : list value) : items_of (Ok (VArr items)) = Ok items.
Proof. unfold items_of. simpl. apply map_r_ok. Qed.

(** The normaliser gives a record the id the lookups compare. *)
Lemma normalizeOne_id (x : value) (b : Bean) :
  normalizeOne x = Ok b -> DetailView.raw_id x = Ok (id b).
Proof.
  unfold normalizeOne, DetailView.raw_id.
  destruct (String_ (get x "id" ?? get x "_id" ?? get x "beanId" ?? get x "Id"
                     ?? get x "ID" ?? VStr "")) as [i|e]; [|discriminate].
  simpl.
  destruct (String_ (get x "name" ?? get x "flavor" ?? get x "title" ?? VStr "Unknown"))
    as [n|e]; [|discriminate].
  simpl. now intros [= <-].
Qed.

(** A [find] followed by the normalisation of what it found, inside a [try]
    whose [catch] goes on: the search of the specification. *)
Lemma search_stage (items : list value) (id0 : string) :
  try_catch
    (let* found :=
       array_find (fun x => let* rid := DetailView.raw_id x in Ok (rid =? id0))
         (VArr items) in
     DetailView.normalized_or_null found)
    (Ok None)
  = Ok (search items id0).
Proof.
  induction items as [|x rest IH]; [reflexivity|].
  simpl. simpl in IH.
  destruct (DetailView.raw_id x) as [rid|e]; simpl; [|reflexivity].
  destruct (rid =? id0); simpl.
  - unfold DetailView.normalized_or_null.
    destruct (truthy x); [|reflexivity].
    destruct (normalizeOne x); reflexivity.
  - exact IH.
Qed.

Lemma stage_find (r : response) (id0 : string) :
  try_catch
    (let* data := r in
     let* found :=
       array_find (fun x => let* rid := DetailView.raw_id x in Ok (rid =? id0))
         (unwrap data) in
     DetailView.normalized_or_null found)
    (Ok None)
  = Ok (find_in r id0).
Proof.
  unfold find_in, items_of. destruct r as [data|e]; [|reflexivity].
  cbn [bind]. destruct (unwrap data) as [| |b|n|s|items|fields]; try reflexivity.
  rewrite search_stage. cbn [array_map]. now rewrite map_r_ok.
Qed.

Lemma search_id (items : list value) (id0 : string) (b : Bean) :
  search items id0 = Some b -> id b = id0.
Proof.
  induction items as [|x rest IH]; simpl; [discriminate|].
  destruct (DetailView.raw_id x) as [rid|e] eqn:Hr; [|discriminate].
  destruct (rid =? id0) eqn:E; [|exact IH].
  apply String.eqb_eq in E. subst rid.
  destruct (truthy x); [|discriminate].
  destruct (normalizeOne x) as [b'|e] eqn:Hn; [|discriminate].
  intros [= <-]. apply normalizeOne_id in Hn. congruence.
Qed.

Lemma find_in_id (r : response) (id0 : string) (b : Bean) :
  find_in r id0 = Some b -> id b = id0.
Proof.
  unfold find_in. destruct (items_of r) as [items|e]; [|discriminate].
  apply search_id.
Qed.

(** X9: when the direct request fails, [fetchBeanById] searches the answer
    of [/api/beans]: its records are tried in order and the first with the
    requested raw id is returned, normalised.  The answer of [/api/flavors]
    is searched the same way when that search finds nothing: the request
    failed, the body holds no list, no record has the id, or a record tried
    on the way, or the match, cannot be converted.  The record the function
    resolves to carries the requested id. *)
Theorem fetchBeanById_fallback_order (id0 : string) (e : exn) (beansA flavorsB : response) :
  DetailView.fetchBeanById id0 (Throw e) beansA flavorsB
  = Ok match find_in beansA id0 with
       | Some b => Some b
       | None => find_in flavorsB id0
       end
  /\ (forall items, find_in (Ok (VArr items)) id0 = search items id0)
  /\ (forall b, DetailView.fetchBeanById id0 (Throw e) beansA flavorsB = Ok (Some b) ->
                id b = id0).
Proof.
  assert (H : DetailView.fetchBeanById id0 (Throw e) beansA flavorsB
              = Ok match find_in beansA id0 with
                   | Some b => Some b
                   | None => find_in flavorsB id0
                   end).
  { unfold DetailView.fetchBeanById.
    match goal with |- try_catch _ ?h = ?rhs => change (h = rhs) end.
    rewrite (stage_find beansA id0), (stage_find flavorsB id0). simpl.
    destruct (find_in beansA id0) as [b|]; [reflexivity|].
    destruct (find_in flavorsB id0); reflexivity. }
  split; [exact H|]. split.
  { intros items. unfold find_in. now rewrite items_of_ok. }
  intros b. rewrite H. intros [= Hb].
  destruct (find_in beansA id0) as [b'|] eqn:Ha.
  - injection Hb as <-. now apply (find_in_id beansA).
  - now apply (find_in_id flavorsB).
Qed.

Lemma fetchBeanById_fallback_order_witness :
  let listing := Ok (VObj [("data", VArr [VObj [("_id", VNum "7"); ("flavor", VStr "Pear")]])]) in
  id (mkBean "7" "Pear" (VStr "") (VStr "") (VStr "") (VStr "")) = "7".
Proof.
  intros listing.
  apply (proj2 (proj2 (fetchBeanById_fallback_order "7" RequestFailed (Throw TypeError)
                         listing))).
  reflexivity.
Defined.

Lemma plain_forall (items : list value) :
  List.forallb plain items = true -> Forall (fun x => plain x = true) items.
Proof. intros H. apply Forall_forall. now apply List.forallb_forall. Qed.







(** The two passes over the records of one endpoint. *)
Lemma fetchAllIds_chain (beansA flavorsB : response) :
  DetailView.fetchAllIds beansA flavorsB
  = try_catch
      (let* items := items_of beansA in
       let* strings := map_r DetailView.raw_id items in
       Ok (List.filter Js.truthy_str strings))
      (let* items := items_of flavorsB in
       let* strings := map_r DetailView.raw_id items in
       Ok (List.filter Js.truthy_str strings)).
Proof.
  unfold DetailView.fetchAllIds.
  assert (H : forall r,
             (let* data := r in
              let* strings := array_map DetailView.raw_id (unwrap data) in
              Ok (List.filter Js.truthy_str strings))
             = (let* items := items_of r in
                let* strings := map_r DetailView.raw_id items in
                Ok (List.filter Js.truthy_str strings))).
  { intros [data|e]; [|reflexivity]. unfold items_of. cbn [bind].
    destruct (unwrap data); try reflexivity. cbn [array_map]. now rewrite map_r_ok. }
  now rewrite !H.
Qed.

Lemma collection_of_items (r : response) :
  collection_of r
  = (let* items := items_of r in
     let* beans := map_r normalizeOne items in
     Ok (List.filter has_id_and_name beans)).
Proof.
  rewrite <- endpoint_body. destruct r as [data|e]; [|reflexivity].
  unfold items_of. cbn [bind]. destruct (unwrap data); try reflexivity.
  cbn [array_map]. now rewrite map_r_ok.
Qed.

Lemma items_of_plain (r : response) (items : list value) :
  plain_answer r -> items_of r = Ok items -> List.forallb plain items = true.
Proof.
  destruct r as [data|e]; [|discriminate]. simpl. intros Hp. unfold items_of. cbn [bind].
  assert (Hu : plain (unwrap data) = true).
  { destruct data; simpl; try reflexivity; try exact Hp.
    apply coalesce_plain; [|reflexivity]. now apply (get_plain (VObj fields)). }
  destruct (unwrap data) as [| |b|n|s|its|fields]; try discriminate.
  cbn [array_map]. rewrite map_r_ok. now intros [= <-].
Qed.

Lemma map_r_plain (items : list value) :
  List.forallb plain items = true ->
  exists beans,
    map_r normalizeOne items = Ok beans
    /\ map_r DetailView.raw_id items = Ok (List.map id beans).
Proof.
  induction items as [|x rest IH]; simpl; [exists []; auto|].
  rewrite andb_true_iff. intros [Hx Hrest].
  destruct (IH Hrest) as (beans & Hb & Hi).
  destruct (normalizeOne_plain x Hx) as [b Hn].
  exists (b :: beans). rewrite Hn, Hb, (normalizeOne_id x b Hn), Hi. auto.
Qed.

Lemma ids_cover_beans (beans : list Bean) :
  incl (List.map id (List.filter has_id_and_name beans))
       (List.filter Js.truthy_str (List.map id beans)).
Proof.
  intros x Hx. apply List.in_map_iff in Hx. destruct Hx as (b & <- & Hb).
  apply List.filter_In in Hb. destruct Hb as [Hb Hkeep].
  apply List.filter_In. split; [now apply List.in_map|].
  unfold has_id_and_name in Hkeep. apply andb_true_iff in Hkeep. tauto.
Qed.

(** X11: [fetchAllIds] returns no empty id.  When the answers of the two
    endpoints hold no key [toString], it answers from the endpoint
    [fetchBeans] answers from, it fails exactly when [fetchBeans] fails,
    and it holds the id of every bean [fetchBeans] returns. *)
Theorem fetchAllIds_covers_fetchBeans (beansA flavorsB : response) :
  (forall l, DetailView.fetchAllIds beansA flavorsB = Ok l -> Forall (fun s => s <> "") l)
  /\ (plain_answer beansA -> plain_answer flavorsB ->
      ((exists l, DetailView.fetchAllIds beansA flavorsB = Ok l)
       <-> (exists beans, fetchBeans beansA flavorsB = Ok beans))
      /\ forall l beans,
           DetailView.fetchAllIds beansA flavorsB = Ok l ->
           fetchBeans beansA flavorsB = Ok beans ->
           incl (List.map id beans) l).
Proof.
  rewrite fetchAllIds_chain, fetchBeans_chain, !collection_of_items.
  assert (Hne : forall strings,
             Forall (fun s => s <> "") (List.filter Js.truthy_str strings)).
  { intros strings. apply Forall_forall. intros s Hs. apply List.filter_In in Hs.
    now apply truthy_str_true. }
  split.
  { intros l.
    destruct (items_of beansA) as [itemsA|eA]; cbn [bind try_catch].
    - destruct (map_r DetailView.raw_id itemsA) as [sA|eA]; cbn [bind try_catch].
      + intros [= <-]. apply Hne.
      + destruct (items_of flavorsB) as [itemsB|eB]; cbn [bind]; [|discriminate].
        destruct (map_r DetailView.raw_id itemsB); cbn [bind]; [|discriminate].
        intros [= <-]. apply Hne.
    - destruct (items_of flavorsB) as [itemsB|eB]; cbn [bind]; [|discriminate].
      destruct (map_r DetailView.raw_id itemsB); cbn [bind]; [|discriminate].
      intros [= <-]. apply Hne. }
  intros HpA HpB.
  assert (Hend : forall r, plain_answer r ->
            (exists e, items_of r = Throw e)
            \/ (exists items beans,
                  items_of r = Ok items
                  /\ map_r normalizeOne items = Ok beans
                  /\ map_r DetailView.raw_id items = Ok (List.map id beans))).
  { intros r Hp. destruct (items_of r) as [items|e] eqn:Hi; [right | left; eauto].
    destruct (map_r_plain items (items_of_plain r items Hp Hi)) as (beans & Hb & Hs).
    exists items, beans. auto. }
  destruct (Hend beansA HpA) as [[eA HiA] | (itemsA & bsA & HiA & HnA & HsA)];
    rewrite HiA; cbn [bind try_catch].
  - destruct (Hend flavorsB HpB) as [[eB HiB] | (itemsB & bsB & HiB & HnB & HsB)];
      rewrite HiB; cbn [bind try_catch].
    + split; [split; intros [? H]; discriminate H | intros l beans H; discriminate H].
    + rewrite HnB, HsB. cbn [bind].
      split; [split; eauto|]. intros l beans [= <-] [= <-]. apply ids_cover_beans.
  - rewrite HnA, HsA. cbn [bind try_catch].
    split; [split; eauto|]. intros l beans [= <-] [= <-]. apply ids_cover_beans.
Qed.

Lemma fetchAllIds_covers_fetchBeans_witness :
  let listing :=
    Ok (VArr [VObj [("id", VNum "5"); ("name", VStr "")]; VObj [("ID", VStr "7")]; VNull]) in
  incl (List.map id [mkBean "7" "Unknown" (VStr "") (VStr "") (VStr "") (VStr "")]) ["5"; "7"].
Proof.
  intros listing.
  refine (proj2 (proj2 (fetchAllIds_covers_fetchBeans listing (Throw RequestFailed))
                   _ _) ["5"; "7"] _ eq_refl eq_refl).
  - reflexivity.
  - exact I.
Defined.

(** ** Where a deep link puts the page, and pages that are gone *)

Lemma deep_link_state (id0 : string) (one beansA1 flavorsB1 beansA2 flavorsB2 : response) :
  let l := match DetailView.fetchAllIds beansA2 flavorsB2 with Ok l => l | Throw _ => [] end in
  let st := fst (DetailView.deep_link id0 one beansA1 flavorsB1 beansA2 flavorsB2) in
  DetailView.ids st = l
  /\ DetailView.idx st =
       if ((List.length l =? 0)%nat || negb (Js.truthy_str id0))%bool then (-1)%Z
       else if (indexOf l id0 >=? 0)%Z then indexOf l id0 else 0%Z.
Proof.
  intros l st. subst l st. unfold DetailView.deep_link.
  rewrite DetailFacts.mount_deep_link.
  destruct (DetailFacts.fetchBeanById_total id0 one beansA1 flavorsB1) as [found ->].
  destruct (DetailView.fetchAllIds beansA2 flavorsB2) as [[|x l]|e], found as [b|];
    try (split; reflexivity);
    unfold DetailView.rerun, DetailView.effectD;
    cbn [DetailView.effectB_settled DetailView.effectC_settled negb DetailView.setIds
         DetailView.setLoading DetailView.setError DetailView.setBean DetailView.ids
         List.length Nat.eqb DetailView.bean DetailView.loading DetailView.error
         DetailView.idx DetailView.effectC DetailView.has_beans nav_beans Z.geb Z.compare
         orb fst snd];
    destruct (Js.truthy_str id0); cbn [negb]; try (split; reflexivity);
    destruct (indexOf (x :: l) id0 >=? 0)%Z; split; reflexivity.
Qed.

(** X7: after a deep link the page holds the identifiers [fetchAllIds]
    returned (none when it failed).  With none, the index stays at -1 and
    both buttons are disabled; with the route id among them, the index is
    its first position; with some but not the route id, the index is 0 and
    Previous is disabled. *)
Theorem deep_link_index (id0 : string) (one beansA1 flavorsB1 beansA2 flavorsB2 : response) :
  let l := match DetailView.fetchAllIds beansA2 flavorsB2 with Ok l => l | Throw _ => [] end in
  let st := fst (DetailView.deep_link id0 one beansA1 flavorsB1 beansA2 flavorsB2) in
  DetailView.ids st = l
  /\ (l = [] ->
      DetailView.idx st = (-1)%Z
      /\ DetailView.canPrev st = false /\ DetailView.canNext st = false)
  /\ (id0 <> "" -> In id0 l ->
      exists p : nat,
        DetailView.idx st = Z.of_nat p
        /\ List.nth_error l p = Some id0
        /\ forall q, List.nth_error l q = Some id0 -> (p <= q)%nat)
  /\ (id0 <> "" -> l <> [] -> ~ In id0 l ->
      DetailView.idx st = 0%Z /\ DetailView.canPrev st = false).
Proof.
  intros l st.
  destruct (deep_link_state id0 one beansA1 flavorsB1 beansA2 flavorsB2) as [Hids Hidx].
  fold l in Hids, Hidx. fold st in Hids, Hidx.
  split; [exact Hids|]. split; [|split].
  - intros Hl. rewrite Hl in Hidx. simpl in Hidx.
    unfold DetailView.canPrev, DetailView.canNext. rewrite Hidx. auto.
  - intros Hid Hin. apply truthy_str_true in Hid. rewrite Hid in Hidx.
    destruct l as [|x l']; [contradiction|]. cbn [List.length Nat.eqb orb negb] in Hidx.
    apply List.In_nth_error in Hin. destruct Hin as [q Hq].
    destruct (indexOf_from_first _ id0 0%Z q Hq) as (p & Hp & _ & Hn & _).
    fold (indexOf (x :: l') id0) in Hp. rewrite Z.add_0_l in Hp.
    exists p. rewrite Hidx, Hp.
    assert (Hge : (Z.of_nat p >=? 0)%Z = true) by (apply Z.geb_le; lia).
    rewrite Hge. split; [reflexivity|]. split; [exact Hn|].
    intros q' Hq'. destruct (indexOf_from_first _ id0 0%Z q' Hq') as (p' & Hp' & Hle & _).
    fold (indexOf (x :: l') id0) in Hp'. lia.
  - intros Hid Hl Hnot. apply truthy_str_true in Hid. rewrite Hid in Hidx.
    destruct l as [|x l']; [congruence|]. cbn [List.length Nat.eqb orb negb] in Hidx.
    unfold indexOf in Hidx. rewrite (indexOf_from_absent _ _ 0%Z Hnot) in Hidx.
    simpl in Hidx. unfold DetailView.canPrev. rewrite Hidx. auto.
Qed.

Lemma deep_link_index_witness :
  let listing := Ok (VArr [VObj [("id", VNum "5")]; VObj [("id", VNum "7")]]) in
  exists p : nat,
    DetailView.idx
      (fst (DetailView.deep_link "7" (Throw RequestFailed) listing listing listing listing))
    = Z.of_nat p
    /\ List.nth_error ["5"; "7"] p = Some "7"
    /\ forall q, List.nth_error ["5"; "7"] q = Some "7" -> (p <= q)%nat.
Proof.
  intros listing.
  refine (proj1 (proj2 (proj2
            (deep_link_index "7" (Throw RequestFailed) listing listing listing listing))) _ _).
  - discriminate.
  - simpl. auto.
Defined.

(** X12: a call that settles after its page is gone changes nothing: the
    load of the List and Gallery pages, the record fetch and the
    identifier fetch of the detail page all leave the state as it was,
    whatever they settle with. *)
Theorem unmounted_pages_keep_state (mockData : list value) (beansA flavorsB : response)
    (st : Loaded) (found : result (option Bean)) (listed : result (list string))
    (dst : DetailView.State) :
  load mockData false beansA flavorsB st = st
  /\ DetailView.effectB_settled false found dst = dst
  /\ DetailView.effectC_settled false listed dst = dst.
Proof.
  split; [apply load_unmounted|]. split.
  - destruct found as [[b|]|e]; reflexivity.
  - destruct listed; reflexivity.
Qed.

(** ** Gallery page: the chips and what they show *)

Lemma existsb_eqb_In (x : string) (s : list string) :
  List.existsb (String.eqb x) s = true <-> In x s.
Proof.
  rewrite List.existsb_exists. split.
  - intros (y & Hy & E). apply String.eqb_eq in E. now subst.
  - intros H. exists x. split; [exact H | apply String.eqb_refl].
Qed.

Lemma fold_set_add_In (active acc : list string) (x : string) :
  In x (List.fold_left (fun s y => GalleryView.set_add y s) active acc)
  <-> In x acc \/ In x active.
Proof.
  revert acc. induction active as [|y rest IH]; intros acc; simpl; [tauto|].
  rewrite IH, GalleryFacts.set_add_In. intuition.
Qed.

Lemma set_has_new_Set (active : list string) (x : string) :
  GalleryView.set_has (List.fold_left (fun s y => GalleryView.set_add y s) active []) x
  = List.existsb (String.eqb x) active.
Proof.
  unfold GalleryView.set_has.
  destruct (List.existsb (String.eqb x) active) eqn:E.
  - apply existsb_eqb_In. apply fold_set_add_In. right. now apply existsb_eqb_In.
  - destruct (List.existsb _ (List.fold_left _ active [])) eqn:E'; [|reflexivity].
    apply existsb_eqb_In, fold_set_add_In in E'. destruct E' as [[] | H].
    apply existsb_eqb_In in H. congruence.
Qed.

Lemma gallery_filtered_total (all : list Bean) (active : list string) :
  Forall (fun b => exists x, GalleryView.bucketOf b = Ok x) all ->
  active <> [] ->
  GalleryView.filtered all active = Ok (List.filter (in_active active) all).
Proof.
  intros Hall Hact. unfold GalleryView.filtered.
  destruct active as [|a rest]; [congruence|]. cbn [List.length Nat.eqb].
  apply array_filter_total. eapply Forall_impl; [|exact Hall].
  intros b [x Hx]. unfold in_active. rewrite Hx. cbn [bind].
  now rewrite set_has_new_Set.
Qed.

(** X13: with no chip checked the Gallery page shows every loaded bean;
    otherwise, for beans whose group is a string or absent, it shows, in
    their order, exactly the beans whose bucket is one of the checked
    chips. *)
Theorem gallery_filtered_contract (all : list Bean) (active : list string) :
  GalleryView.filtered all [] = Ok all
  /\ (Forall (fun b => optional_string (group b)) all ->
      active <> [] ->
      GalleryView.filtered all active = Ok (List.filter (in_active active) all)
      /\ forall b, In b all ->
           (in_active active b = true
            <-> exists bucket, GalleryView.bucketOf b = Ok bucket /\ In bucket active)).
Proof.
  split; [reflexivity|]. intros Htyped Hact. split.
  - apply gallery_filtered_total; [|exact Hact].
    eapply Forall_impl; [|exact Htyped]. intros b. apply GalleryFacts.bucketOf_typed.
  - intros b _. unfold in_active. destruct (GalleryView.bucketOf b) as [x|e].
    + rewrite existsb_eqb_In. split; [eauto | now intros (y & [= <-] & H)].
    + split; [discriminate | intros (y & H & _); discriminate H].
Qed.

Lemma gallery_filtered_contract_witness :
  let all := [with_group "Sour" "Lime"; with_group "" "apple"; with_group "Sour" "Lemon"] in
  GalleryView.filtered all ["A"] = Ok [with_group "" "apple"].
Proof.
  intros all.
  refine (proj1 (proj2 (gallery_filtered_contract all ["A"]) _ _)).
  - repeat constructor.
  - discriminate.
Defined.

Lemma add_buckets_ok (all : list Bean) (s out : list string) :
  GalleryView.add_buckets all s = Ok out ->
  Forall (fun b => exists x, GalleryView.bucketOf b = Ok x) all.
Proof.
  revert s. induction all as [|b rest IH]; intros s; simpl; [intros _; constructor|].
  destruct (GalleryView.bucketOf b) as [x|e] eqn:E; simpl; [|discriminate].
  intros H. constructor; [exists x; exact E | exact (IH _ H)].
Qed.

Lemma allBuckets_ok (all : list Bean) (buckets : list string) :
  GalleryView.allBuckets all = Ok buckets ->
  Forall (fun b => exists x, GalleryView.bucketOf b = Ok x) all.
Proof.
  unfold GalleryView.allBuckets.
  destruct (GalleryView.add_buckets all []) as [s|e] eqn:E; [|discriminate].
  intros _. eapply add_buckets_ok; exact E.
Qed.

(** X14: when beans are loaded, the default selection never leaves the
    Gallery page empty, it shows loaded beans only, and with at most three
    buckets it shows every loaded bean. *)
Theorem default_selection_shows (all : list Bean) (buckets : list string) :
  GalleryView.allBuckets all = Ok buckets ->
  all <> [] ->
  exists shown,
    GalleryView.filtered all (GalleryView.autoSelect buckets []) = Ok shown
    /\ shown <> []
    /\ incl shown all
    /\ (List.length buckets <= 3 -> shown = all).
Proof.
  intros Hb Hall.
  destruct (GalleryFacts.allBuckets_spec all buckets Hb) as [_ Hin].
  pose proof (allBuckets_ok all buckets Hb) as Hok.
  rewrite GalleryFacts.autoSelect_empty.
  destruct all as [|b0 rest]; [congruence|].
  assert (Hb0 : exists x, GalleryView.bucketOf b0 = Ok x) by (now inversion Hok).
  destruct Hb0 as [x0 Hx0].
  assert (Hx0in : In x0 buckets).
  { apply Hin. exists b0. split; [now left | exact Hx0]. }
  destruct buckets as [|y rest'] eqn:Eb; [contradiction|].
  set (sel := List.firstn (Nat.min 3 (List.length (y :: rest'))) (y :: rest')).
  assert (Hsel : exists tl, sel = y :: tl).
  { subst sel. simpl List.length. destruct (List.length rest') as [|[|n]]; simpl; eauto. }
  destruct Hsel as [tl Hsel].
  exists (List.filter (in_active sel) (b0 :: rest)).
  split; [|split; [|split]].
  - apply gallery_filtered_total; [exact Hok | rewrite Hsel; discriminate].
  - (* the first chip is the bucket of some loaded bean *)
    destruct (proj1 (Hin y) (or_introl eq_refl)) as (b & Hbin & Hby).
    intros Hempty.
    assert (Hshown : In b (List.filter (in_active sel) (b0 :: rest))).
    { apply List.filter_In. split; [exact Hbin|].
      unfold in_active. rewrite Hby, Hsel. simpl. now rewrite String.eqb_refl. }
    rewrite Hempty in Hshown. contradiction.
  - intros b Hbf. apply List.filter_In in Hbf. tauto.
  - intros Hlen. apply List.forallb_filter_id. apply List.forallb_forall.
    intros b Hbin. rewrite Forall_forall in Hok.
    destruct (Hok b Hbin) as [x Hx]. unfold in_active. rewrite Hx.
    apply existsb_eqb_In. subst sel.
    rewrite Nat.min_r by exact Hlen. rewrite List.firstn_all.
    apply Hin. eauto.
Qed.

Lemma default_selection_shows_witness :
  let all := [with_group "Sour" "Lime"; with_group "" "apple"] in
  exists shown,
    GalleryView.filtered all (GalleryView.autoSelect ["A"; "Sour"] []) = Ok shown
    /\ shown <> []
    /\ incl shown all
    /\ (2 <= 3 -> shown = all).
Proof.
  intros all.
  apply (default_selection_shows all ["A"; "Sour"]); [reflexivity | discriminate].
Defined.

(** X15: checking a chip adds its bucket to the selection and unchecking
    removes it, the others staying as they were; checking then unchecking a
    chip that was not selected restores the selection; and unchecking the
    only selected chip empties the selection, upon which the effect puts the
    default selection back. *)
Theorem toggle_contract (tag : string) (prev buckets : list string) :
  (forall t, In t (GalleryView.toggle tag true prev) <-> In t prev \/ t = tag)
  /\ (forall t, In t (GalleryView.toggle tag false prev) <-> In t prev /\ t <> tag)
  /\ (~ In tag prev ->
      GalleryView.toggle tag false (GalleryView.toggle tag true prev) = prev)
  /\ ((forall t, In t prev -> t = tag) ->
      GalleryView.toggle tag false prev = []
      /\ GalleryView.autoSelect buckets (GalleryView.toggle tag false prev)
         = List.firstn (Nat.min 3 (List.length buckets)) buckets).
Proof.
  assert (Hoff : forall l,
             (forall t, In t l -> t <> tag) ->
             List.filter (fun t => negb (t =? tag)) l = l).
  { intros l Hl. apply List.forallb_filter_id, List.forallb_forall.
    intros t Ht. apply negb_true_iff, String.eqb_neq. now apply Hl. }
  split; [|split; [|split]].
  - intros t. unfold GalleryView.toggle. rewrite List.in_app_iff. simpl. intuition.
  - intros t. unfold GalleryView.toggle. rewrite List.filter_In, negb_true_iff.
    now rewrite String.eqb_neq.
  - intros Hnot. unfold GalleryView.toggle. rewrite List.filter_app. simpl.
    rewrite String.eqb_refl. simpl. rewrite List.app_nil_r. apply Hoff.
    intros t Ht ->. contradiction.
  - intros Honly.
    assert (E : GalleryView.toggle tag false prev = []).
    { unfold GalleryView.toggle. induction prev as [|t rest IH]; [reflexivity|].
      simpl. rewrite (Honly t (or_introl eq_refl)), String.eqb_refl. simpl.
      apply IH. intros u Hu. apply Honly. now right. }
    split; [exact E|]. rewrite E. apply GalleryFacts.autoSelect_empty.
Qed.

Lemma toggle_contract_witness :
  GalleryView.toggle "Mint" false (GalleryView.toggle "Mint" true ["Berry"]) = ["Berry"]
  /\ GalleryView.autoSelect ["Berry"; "Citrus"; "Mint"; "Tropical"]
       (GalleryView.toggle "Mint" false ["Mint"])
     = ["Berry"; "Citrus"; "Mint"].
Proof.
  destruct (toggle_contract "Mint" ["Berry"] []) as (_ & _ & Hround & _).
  destruct (toggle_contract "Mint" ["Mint"] ["Berry"; "Citrus"; "Mint"; "Tropical"])
    as (_ & _ & _ & Hclear).
  split.
  - apply Hround. simpl. intuition discriminate.
  - apply Hclear. simpl. intuition.
Defined.

(** ** List page: sorting again, and from a row to the detail page *)

Lemma array_sort_fixed {A : Type} (cmp : A -> A -> Z) (arr : list A) :
  StronglySorted (fun a b => (cmp a b <= 0)%Z) arr -> array_sort cmp arr = arr.
Proof.
  induction 1 as [|x rest Hs IH Hx]; [reflexivity|].
  simpl. rewrite IH. destruct rest as [|y rest']; [reflexivity|].
  simpl. inversion Hx as [|? ? Hxy _]; subst.
  apply Z.leb_le in Hxy. now rewrite Hxy.
Qed.

Lemma in_order_sorted_cmp (sortKey : ListView.SortKey) (sortDir : ListView.SortDir)
    (l : list Bean) :
  StronglySorted (fun a b => in_order sortDir (sort_key sortKey a) (sort_key sortKey b)) l ->
  StronglySorted (fun a b => (ListView.compare_fn sortKey sortDir a b <= 0)%Z) l.
Proof.
  induction 1 as [|x rest Hs IH Hx]; constructor; [exact IH|].
  eapply Forall_impl; [|exact Hx]. intros y Hy. now apply compare_fn_le.
Qed.

(** X16: a list that is already in the order asked for is left as it is,
    so sorting twice with the same key and direction gives what sorting
    once gives. *)
Theorem sorted_idempotent (l : list Bean) (sortKey : ListView.SortKey)
    (sortDir : ListView.SortDir) :
  (StronglySorted (fun a b => in_order sortDir (sort_key sortKey a) (sort_key sortKey b)) l ->
   ListView.sorted l sortKey sortDir = l)
  /\ ListView.sorted (ListView.sorted l sortKey sortDir) sortKey sortDir
     = ListView.sorted l sortKey sortDir.
Proof.
  assert (Hfix : forall l',
             StronglySorted
               (fun a b => in_order sortDir (sort_key sortKey a) (sort_key sortKey b)) l' ->
             ListView.sorted l' sortKey sortDir = l').
  { intros l' H. unfold ListView.sorted. now apply array_sort_fixed, in_order_sorted_cmp. }
  split; [apply Hfix|]. apply Hfix. unfold ListView.sorted.
  apply array_sort_sorted.
  - intros a b. apply compare_fn_le.
  - intros a b. apply in_order_total.
  - intros a b c. apply in_order_trans.
Qed.

Lemma sorted_idempotent_witness :
  let l := [with_group "Sour" "Apple"; with_group "Sour" "pear"] in
  ListView.sorted l ListView.ByName ListView.Asc = l.
Proof.
  intros l.
  apply (proj1 (sorted_idempotent l ListView.ByName ListView.Asc)).
  repeat constructor.
Defined.

Lemma map_from_fst {A B : Type} (g : A -> nat -> B) (k : nat) (l : list A) :
  List.map fst (map_from (fun x i => (x, g x i)) k l) = l.
Proof.
  revert k. induction l as [|x rest IH]; intros k; simpl; [reflexivity|]. now rewrite IH.
Qed.

Lemma render_rows (st : Loaded) (q : string) (sortKey : ListView.SortKey)
    (sortDir : ListView.SortDir) (rows : list (Bean * Navigation)) :
  ListView.render st q sortKey sortDir = Ok (ListView.Rows rows) ->
  exists kept,
    ListView.filtered (all st) q = Ok kept
    /\ loading st = false
    /\ rows = map_index (fun b i => (b, ListView.link (ListView.sorted kept sortKey sortDir) b i))
                (ListView.sorted kept sortKey sortDir).
Proof.
  unfold ListView.render.
  destruct (ListView.filtered (all st) q) as [kept|e]; simpl; [|discriminate].
  intros H. exists kept. split; [reflexivity|].
  destruct (loading st); [discriminate|]. split; [reflexivity|].
  destruct (error st) as [msg|]; [destruct (Js.truthy_str msg)|]; congruence.
Qed.

(** X17: every row the List page renders stands for a bean that passed the
    search, at its place in the sorted list, and its link points to the
    identifier of that bean at that place; when the identifiers of the rows
    are pairwise different, following the link opens the detail page on
    that very bean, at the index of the row, without any request. *)
Theorem list_row_opens_detail (st : Loaded) (q : string) (sortKey : ListView.SortKey)
    (sortDir : ListView.SortDir) (rows : list (Bean * Navigation))
    (i : nat) (b : Bean) (nav : Navigation) :
  ListView.render st q sortKey sortDir = Ok (ListView.Rows rows) ->
  List.nth_error rows i = Some (b, nav) ->
  (exists kept,
      ListView.filtered (all st) q = Ok kept
      /\ List.map fst rows = ListView.sorted kept sortKey sortDir
      /\ In b kept)
  /\ List.nth_error (List.map fst rows) i = Some b
  /\ nav = ListView.link (List.map fst rows) b i
  /\ to nav = ("/detail/" ++ stableId b i)%string
  /\ (NoDup (ListView.ids (List.map fst rows)) ->
      DetailView.mount (stableId b i) (state nav)
      = (DetailView.mkState (Some b) false None (ListView.ids (List.map fst rows))
           (Z.of_nat i), [])).
Proof.
  intros Hrender Hrow.
  destruct (render_rows st q sortKey sortDir rows Hrender) as (kept & Hkept & _ & Hrows).
  set (s := ListView.sorted kept sortKey sortDir) in *.
  assert (Hfst : List.map fst rows = s).
  { rewrite Hrows. unfold map_index. apply map_from_fst. }
  assert (Hnth : List.nth_error s i = Some b /\ nav = ListView.link s b i).
  { rewrite Hrows in Hrow. unfold map_index in Hrow. rewrite map_from_nth in Hrow.
    destruct (List.nth_error s i) as [b'|]; [|discriminate].
    simpl in Hrow. injection Hrow as <- <-. auto. }
  destruct Hnth as [Hb Hnav]. rewrite Hfst.
  split; [|split; [exact Hb|split; [exact Hnav|split; [now rewrite Hnav|]]]].
  - exists kept. split; [exact Hkept|]. split; [reflexivity|].
    apply List.nth_error_In in Hb. subst s. unfold ListView.sorted in Hb.
    eapply Permutation_in; [apply array_sort_perm | exact Hb].
  - intros Hnd. rewrite Hnav.
    assert (Hid : List.nth_error (map_index stableId s) i = Some (stableId b i)).
    { unfold map_index. now rewrite map_from_nth, Hb. }
    destruct (commit_carried (stableId b i) (state (ListView.link s b i)) true
                (DetailView.initial (state (ListView.link s b i))) s i)
      as (_ & _ & Hp & Hc); [reflexivity | simpl; lia | exact Hid |].
    unfold DetailView.mount. rewrite Hc, (Hp Hnd). unfold showing. now rewrite Hb.
Qed.

Lemma list_row_opens_detail_witness :
  let st := mkLoaded [with_group "Sour" "pear"; with_group "Sour" "Apple"] false None in
  let s := [with_group "Sour" "Apple"; with_group "Sour" "pear"] in
  let b := with_group "Sour" "pear" in
  List.nth_error s 1 = Some b.
Proof.
  intros st s b.
  refine (proj1 (proj2
            (list_row_opens_detail st "" ListView.ByName ListView.Asc
               (map_index (fun x i => (x, ListView.link s x i)) s) 1 b (ListView.link s b 1)
               eq_refl eq_refl))).
Defined.

(** ** Placeholder images *)

Lemma uri_escaped_encode_char (c : ascii) (r : string) :
  uri_escaped (encode_char c ++ r) = uri_escaped r.
Proof.
  destruct c as [[] [] [] [] [] [] [] []]; reflexivity.
Qed.

Lemma uri_escaped_encode (s : string) : uri_escaped (encodeURIComponent s) = true.
Proof.
  induction s as [|c r IH]; [reflexivity|].
  simpl encodeURIComponent. now rewrite uri_escaped_encode_char.
Qed.

Lemma encode_app (a b : string) :
  encodeURIComponent (a ++ b) = (encodeURIComponent a ++ encodeURIComponent b)%string.
Proof.
  induction a as [|c a IH]; [reflexivity|].
  simpl. now rewrite IH, append_assoc.
Qed.

(** X18: the image of a bean always has a source: its own image URL when
    that is truthy, a placeholder otherwise.  The placeholder is the prefix
    [data:image/svg+xml;utf8,] followed by characters that are all
    unreserved or part of an escape [%XX], whatever the name holds, and the
    name stands in it, encoded, between the encoded parts of the template. *)
Theorem placeholder_contract (b : Bean) (text : string) (w h : nat) :
  truthy (image_src b w h) = true
  /\ (truthy (imageUrl b) = true -> image_src b w h = imageUrl b)
  /\ (truthy (imageUrl b) = false -> image_src b w h = VStr (placeholder (name b) w h))
  /\ (exists rest,
        placeholder text w h = ("data:image/svg+xml;utf8," ++ rest)%string
        /\ uri_escaped rest = true)
  /\ placeholder text w h
     = ("data:image/svg+xml;utf8," ++ encodeURIComponent (svg_before w h)
        ++ encodeURIComponent text ++ encodeURIComponent svg_after)%string.
Proof.
  split; [|split; [|split; [|split]]].
  - unfold image_src. destruct (truthy (imageUrl b)) eqn:E; [exact E | reflexivity].
  - intros H. unfold image_src. now rewrite H.
  - intros H. unfold image_src. now rewrite H.
  - exists (encodeURIComponent (svg_before w h ++ text ++ svg_after)).
    split; [reflexivity | apply uri_escaped_encode].
  - unfold placeholder. now rewrite !encode_app.
Qed.

Lemma placeholder_contract_witness :
  image_src (with_group "Mint" "Pear") 64 64 = VStr (placeholder "Pear" 64 64).
Proof.
  refine (proj1 (proj2 (proj2 (placeholder_contract (with_group "Mint" "Pear") "" 64 64))) _).
  reflexivity.
Defined.
